(** * DCGAN graph construction (tensorflow/examples/cc/gan/dcgan/nn_ops_rkz.cc)

    The file under verification builds the computation graph of a DCGAN with
    the C++ graph-construction API: every call appends nodes to the graph
    held by a [Scope].  The embedding below keeps that shape: a [Scope] is
    the list of nodes built so far, every framework operation is a step of a
    small state-and-failure monad, and the helpers and the two networks are
    written in that monad, statement by statement as in the source. *)

From Stdlib Require Import ZArith List Bool Lia Reals Lra.
From Stdlib Require Import Floats.SpecFloat.
Import ListNotations.

Set Implicit Arguments.

(** ** The C++ [float] type *)

(** IEEE-754 binary32, with the operations of the specification of floating
    point arithmetic of the Standard Library at precision 24 and maximal
    exponent 128. *)
Module Binary32.

Definition prec : Z := 24.
Definition emax : Z := 128.

Definition float32 : Type := spec_float.

(** [static_cast<float>(n)] for an integer [n]: round to nearest even. *)
Definition of_Z (n : Z) : float32 := binary_normalize prec emax n 0 false.

Definition add : float32 -> float32 -> float32 := SFadd prec emax.
Definition sub : float32 -> float32 -> float32 := SFsub prec emax.
Definition mul : float32 -> float32 -> float32 := SFmul prec emax.
Definition div : float32 -> float32 -> float32 := SFdiv prec emax.
Definition sqrt : float32 -> float32 := SFsqrt prec emax.
Definition neg : float32 -> float32 := SFopp.

(** [std::max(a, b)] is [(a < b) ? b : a]. *)
Definition max (a b : float32) : float32 := if SFltb a b then b else a.

(** [static_cast<int>(f)]: the fractional part is discarded.  The
    conversion of a NaN or of an infinity is not defined by the language;
    the model returns 0 there. *)
Definition to_Z (f : float32) : Z :=
  match f with
  | S754_finite s m e =>
      let a := match e with
               | Z0 => Zpos m
               | Zpos p => Z.shiftl (Zpos m) (Zpos p)
               | Zneg p => Z.shiftr (Zpos m) (Zpos p)
               end in
      if s then Z.opp a else a
  | _ => 0%Z
  end.

(** The real number a finite float stands for: its mantissa times the
    power of two of its exponent. *)
Definition to_R (f : float32) : R :=
  match f with
  | S754_finite s m e =>
      let z := if s then Zneg m else Zpos m in
      match e with
      | Zneg p => (IZR z / IZR (Z.pow_pos 2 p))%R
      | _ => IZR (z * 2 ^ e)
      end
  | _ => 0%R
  end.

End Binary32.

(** The arithmetic the source performs on [float] values, as an interface:
    the file is read once with [float] as binary32, which computes, and once
    with [float] as the real numbers, which gives the formulas of the
    comments their exact meaning. *)
Class FloatArith (F : Type) : Type := {
  f_of_Z : Z -> F;
  f_to_Z : F -> Z;
  f_add : F -> F -> F;
  f_sub : F -> F -> F;
  f_mul : F -> F -> F;
  f_div : F -> F -> F;
  f_neg : F -> F;
  f_max : F -> F -> F;
  f_sqrt : F -> F;
  f_val : F -> R
}.

#[global] Instance Binary32_arith : FloatArith Binary32.float32 := {
  f_of_Z := Binary32.of_Z;
  f_to_Z := Binary32.to_Z;
  f_add := Binary32.add;
  f_sub := Binary32.sub;
  f_mul := Binary32.mul;
  f_div := Binary32.div;
  f_neg := Binary32.neg;
  f_max := Binary32.max;
  f_sqrt := Binary32.sqrt;
  f_val := Binary32.to_R
}.

(** Truncation of a real number toward zero. *)
Definition Rtrunc (x : R) : Z :=
  if Rle_dec 0 x then Zfloor x else Z.opp (Zfloor (- x)).

#[global] Instance Real_arith : FloatArith R := {
  f_of_Z := IZR;
  f_to_Z := Rtrunc;
  f_add := Rplus;
  f_sub := Rminus;
  f_mul := Rmult;
  f_div := Rdiv;
  f_neg := Ropp;
  f_max := Rmax;
  f_sqrt := sqrt;
  f_val := fun x => x
}.

(** A decimal literal [n/d] of type [float], such as [0.3f] for [3/10]: the
    float nearest to the quotient. *)
Definition f_lit {F} `{FloatArith F} (n : Z) (d : Z) : F :=
  f_div (f_of_Z n) (f_of_Z d).

(** ** The graph data model *)

Inductive DataType : Type := DT_FLOAT | DT_INT32 | DT_INT64.

(** The framework operations this file instantiates.  A constructor is named
    after the C++ wrapper class; [Multiply] and [Negate] are the wrappers of
    the operations the framework registers as Mul and Neg. *)
Inductive OpKind : Type :=
| Op_Const | Op_Variable | Op_Assign
| Op_Add | Op_Sub | Op_Multiply | Op_Div | Op_Negate
| Op_Rsqrt | Op_Exp | Op_Log1p | Op_Floor | Op_Cast
| Op_ZerosLike | Op_GreaterEqual | Op_SelectV2
| Op_Shape | Op_Reshape | Op_BroadcastTo
| Op_RandomUniform | Op_RandomNormal
| Op_MatMul | Op_BiasAdd | Op_LeakyRelu | Op_FusedBatchNorm
| Op_Conv2D | Op_Conv2DBackpropInput.

Definition OpKind_eqb (a b : OpKind) : bool :=
  match a, b with
  | Op_Const, Op_Const | Op_Variable, Op_Variable | Op_Assign, Op_Assign
  | Op_Add, Op_Add | Op_Sub, Op_Sub | Op_Multiply, Op_Multiply
  | Op_Div, Op_Div | Op_Negate, Op_Negate | Op_Rsqrt, Op_Rsqrt
  | Op_Exp, Op_Exp | Op_Log1p, Op_Log1p | Op_Floor, Op_Floor
  | Op_Cast, Op_Cast | Op_ZerosLike, Op_ZerosLike
  | Op_GreaterEqual, Op_GreaterEqual | Op_SelectV2, Op_SelectV2
  | Op_Shape, Op_Shape | Op_Reshape, Op_Reshape
  | Op_BroadcastTo, Op_BroadcastTo | Op_RandomUniform, Op_RandomUniform
  | Op_RandomNormal, Op_RandomNormal | Op_MatMul, Op_MatMul
  | Op_BiasAdd, Op_BiasAdd | Op_LeakyRelu, Op_LeakyRelu
  | Op_FusedBatchNorm, Op_FusedBatchNorm | Op_Conv2D, Op_Conv2D
  | Op_Conv2DBackpropInput, Op_Conv2DBackpropInput => true
  | _, _ => false
  end.

(** [Output]: one output of one node of the graph.  A node is named by its
    position in the order of construction. *)
Record Output : Type := { node : nat; index : nat }.

(** The padding scheme of a convolution (the source only passes "SAME"). *)
Inductive Padding : Type := SAME | VALID.

Section Graph.

Context {F : Type} {FA : FloatArith F}.

(** The elements of a tensor, integers or floats. *)
Inductive TensorData : Type :=
| IntData (l : list Z)
| FloatData (l : list F).

Record Tensor : Type :=
  { t_dtype : DataType; t_shape : list Z; t_data : TensorData }.

(** [Input]: what an operation accepts as an operand, either the output of
    a node or a value given in the program text (a scalar, an initializer
    list, a [Tensor]), for which the operation first builds a Const node. *)
Inductive Input : Type :=
| In_Output (o : Output)
| In_Tensor (t : Tensor).

(** The attributes of the nodes this file builds. *)
Inductive Attr : Type :=
| A_value (t : Tensor)
| A_dtype (d : DataType)
| A_shape (s : list Z)
| A_DstT (d : DataType)
| A_strides (s : list Z)
| A_padding (p : Padding)
| A_alpha (a : F)
| A_epsilon (e : F).

Record NodeDef : Type :=
  { op : OpKind; inputs : list Output; attrs : list Attr }.

(** [Scope]: the graph under construction, most recent node first.  The
    status of the scope is only ever logged by this file and shape
    inference belongs to the framework, so neither is part of the state. *)
Record Scope : Type := { graph : list NodeDef }.

Definition NewRootScope : Scope := {| graph := [] |}.

(** *** Graph construction steps *)

(** A construction step transforms the scope and returns a value; [None]
    stands for an execution the language leaves undefined (an out of range
    read of a vector). *)
Definition Build (A : Type) : Type := Scope -> option (A * Scope).

Definition ret {A} (a : A) : Build A := fun s => Some (a, s).

Definition bind {A B} (c : Build A) (k : A -> Build B) : Build B :=
  fun s => match c s with
           | Some (a, s') => k a s'
           | None => None
           end.

Definition undefined {A} : Build A := fun _ => None.

End Graph.

Arguments Tensor : clear implicits.
Arguments Input : clear implicits.
Arguments Attr : clear implicits.
Arguments NodeDef : clear implicits.
Arguments Scope : clear implicits.
Arguments Build : clear implicits.
Arguments TensorData : clear implicits.

Declare Scope build_scope.
Delimit Scope build_scope with build.
Notation "x <- c ;; k" := (bind c (fun x => k))
  (at level 61, c at next level, right associativity) : build_scope.
Notation "' p <- c ;; k" := (bind c (fun x => match x with p => k end))
  (at level 61, p pattern, c at next level, right associativity) : build_scope.

#[warning="-uniform-inheritance"]
Coercion In_Output : Output >-> Input.

(** ** The framework operations *)

Section Ops.

Context {F : Type} {FA : FloatArith F}.

Local Open Scope build_scope.

(** Appends one node to the graph and returns its first output. *)
Definition add_node (k : OpKind) (ins : list Output) (ats : list (Attr F))
  : Build F Output :=
  fun s =>
    Some ({| node := length (graph s); index := 0 |},
          {| graph := {| op := k; inputs := ins; attrs := ats |} :: graph s |}).

(** Tensors given in the program text. *)
Definition scalar_f (v : F) : Tensor F :=
  {| t_dtype := DT_FLOAT; t_shape := []; t_data := FloatData [v] |}.

Definition list_f (l : list F) : Tensor F :=
  {| t_dtype := DT_FLOAT; t_shape := [Z.of_nat (length l)];
     t_data := FloatData l |}.

Definition list_i32 (l : list Z) : Tensor F :=
  {| t_dtype := DT_INT32; t_shape := [Z.of_nat (length l)];
     t_data := IntData l |}.

Definition list_i64 (l : list Z) : Tensor F :=
  {| t_dtype := DT_INT64; t_shape := [Z.of_nat (length l)];
     t_data := IntData l |}.

Definition num_elements (shape : list Z) : Z := fold_right Z.mul 1%Z shape.

Definition fill_f (v : F) (shape : list Z) : Tensor F :=
  {| t_dtype := DT_FLOAT; t_shape := shape;
     t_data := FloatData (repeat v (Z.to_nat (num_elements shape))) |}.

Definition Const (t : Tensor F) : Build F Output :=
  add_node Op_Const [] [A_value t; A_dtype (t_dtype t)].

(** What every operation does with an operand: an [Output] is used as it
    is, a value of the program text becomes a Const node. *)
Definition AsNodeOut (i : Input F) : Build F Output :=
  match i with
  | In_Output o => ret o
  | In_Tensor t => Const t
  end.

Definition unary_op (k : OpKind) (ats : list (Attr F)) (x : Input F)
  : Build F Output :=
  x' <- AsNodeOut x ;;
  add_node k [x'] ats.

Definition binary_op (k : OpKind) (ats : list (Attr F)) (x y : Input F)
  : Build F Output :=
  x' <- AsNodeOut x ;;
  y' <- AsNodeOut y ;;
  add_node k [x'; y'] ats.

Definition ternary_op (k : OpKind) (ats : list (Attr F)) (x y z : Input F)
  : Build F Output :=
  x' <- AsNodeOut x ;;
  y' <- AsNodeOut y ;;
  z' <- AsNodeOut z ;;
  add_node k [x'; y'; z'] ats.

Definition Add := binary_op Op_Add [].
Definition Sub := binary_op Op_Sub [].
Definition Multiply := binary_op Op_Multiply [].
Definition Div := binary_op Op_Div [].
Definition Negate := unary_op Op_Negate [].
Definition Rsqrt := unary_op Op_Rsqrt [].
Definition Exp := unary_op Op_Exp [].
Definition Log1p := unary_op Op_Log1p [].
Definition Floor := unary_op Op_Floor [].
Definition ZerosLike := unary_op Op_ZerosLike [].
Definition Shape := unary_op Op_Shape [].
Definition GreaterEqual := binary_op Op_GreaterEqual [].
Definition SelectV2 := ternary_op Op_SelectV2 [].
Definition MatMul := binary_op Op_MatMul [].
Definition BiasAdd := binary_op Op_BiasAdd [].
Definition Reshape := binary_op Op_Reshape [].
Definition BroadcastTo := binary_op Op_BroadcastTo [].
Definition Assign := binary_op Op_Assign [].

Definition Cast (x : Input F) (DstT : DataType) : Build F Output :=
  unary_op Op_Cast [A_DstT DstT] x.

Definition RandomUniform (shape : Input F) (dtype : DataType)
  : Build F Output :=
  unary_op Op_RandomUniform [A_dtype dtype] shape.

Definition RandomNormal (shape : Input F) (dtype : DataType)
  : Build F Output :=
  unary_op Op_RandomNormal [A_dtype dtype] shape.

(** [Variable(scope, shape, dtype)]; the name carries a quote because the
    bare word is reserved. *)
Definition Variable' (shape : list Z) (dtype : DataType) : Build F Output :=
  add_node Op_Variable [] [A_shape shape; A_dtype dtype].

Definition LeakyRelu (features : Input F) (alpha : F) : Build F Output :=
  unary_op Op_LeakyRelu [A_alpha alpha] features.

Definition Conv2D (input filter : Input F) (strides : list Z)
  (padding : Padding) : Build F Output :=
  binary_op Op_Conv2D [A_strides strides; A_padding padding] input filter.

Definition Conv2DBackpropInput (input_sizes filter out_backprop : Input F)
  (strides : list Z) (padding : Padding) : Build F Output :=
  ternary_op Op_Conv2DBackpropInput [A_strides strides; A_padding padding]
    input_sizes filter out_backprop.

(** [FusedBatchNorm] has five outputs; the file only uses [y]. *)
Record FusedBatchNormOutputs : Type :=
  { y : Output; batch_mean : Output; batch_variance : Output;
    reserve_space_1 : Output; reserve_space_2 : Output }.

Definition FusedBatchNorm (x scale offset mean variance : Input F)
  (epsilon : F) : Build F FusedBatchNormOutputs :=
  x' <- AsNodeOut x ;;
  scale' <- AsNodeOut scale ;;
  offset' <- AsNodeOut offset ;;
  mean' <- AsNodeOut mean ;;
  variance' <- AsNodeOut variance ;;
  o <- add_node Op_FusedBatchNorm [x'; scale'; offset'; mean'; variance']
         [A_epsilon epsilon] ;;
  ret {| y := {| node := node o; index := 0 |};
         batch_mean := {| node := node o; index := 1 |};
         batch_variance := {| node := node o; index := 2 |};
         reserve_space_1 := {| node := node o; index := 3 |};
         reserve_space_2 := {| node := node o; index := 4 |} |}.

(** [v[i]] on a [std::vector]: undefined outside the range. *)
Definition vec_at (v : list Z) (i : nat) : Build F Z :=
  match nth_error v i with
  | Some e => ret e
  | None => undefined
  end.

(** ** The helpers of nn_ops_rkz.cc

    Where one C++ call has several operands that build nodes, the language
    leaves their order of evaluation open; the embedding takes them from
    left to right.  The order only decides the numbering of the nodes.  The
    [LOG(INFO)] statements do not touch the graph and are left out. *)

Definition BatchNormalization
  (x mean variance offset scale variance_epsilon : Input F)
  : Build F Output :=
  inv <- (a <- Add variance variance_epsilon ;; Rsqrt a) ;;
  ret1 <- (c <- Cast inv DT_FLOAT ;; Multiply x c) ;;
  ret2 <- Multiply mean inv ;;
  s <- Sub offset ret2 ;;
  c <- Cast s DT_FLOAT ;;
  Add ret1 c.

(** [rate] is declared [const int]; [float keep_prob = 1 - rate] subtracts
    integers and converts the difference. *)
Definition Dropout (x : Input F) (rate : Z) : Build F Output :=
  let keep_prob : F := f_of_Z (1 - rate) in
  random_value5 <- (sh <- Shape x ;; RandomUniform sh DT_FLOAT) ;;
  random_tensor <-
    (k <- Const (list_f [keep_prob]) ;; Add random_value5 k) ;;
  binary_tensor <- Floor random_tensor ;;
  k <- Const (list_f [keep_prob]) ;;
  d <- Div x k ;;
  Multiply d binary_tensor.

Definition SigmoidCrossEntropyWithLogits (labels logits : Input F)
  : Build F Output :=
  zeros <- ZerosLike logits ;;
  cond <- GreaterEqual logits zeros ;;
  relu_logits <- SelectV2 cond logits zeros ;;
  neg_abs_logits <- (n <- Negate logits ;; SelectV2 cond n logits) ;;
  m <- Multiply logits labels ;;
  s <- Sub relu_logits m ;;
  e <- Exp neg_abs_logits ;;
  l <- Log1p e ;;
  Add s l.

Definition GlorotUniform (shape : list Z) : Build F Output :=
  random_value <-
    (c <- Const (list_i64 shape) ;; RandomUniform c DT_FLOAT) ;;
  let shape_vec := shape in
  e0 <- vec_at shape_vec 0 ;;
  let fan_in := f_of_Z e0 in
  e1 <- vec_at shape_vec 1 ;;
  let fan_out := f_of_Z e1 in
  '(fan_in, fan_out) <-
    (if Nat.eqb (length shape_vec) 4 then
       e0 <- vec_at shape_vec 0 ;;
       e1 <- vec_at shape_vec 1 ;;
       let receptive_field_size :=
         f_mul (f_mul (f_of_Z 1) (f_of_Z e0)) (f_of_Z e1) in
       e2 <- vec_at shape_vec 2 ;;
       e3 <- vec_at shape_vec 3 ;;
       ret (f_mul receptive_field_size (f_of_Z e2),
            f_mul receptive_field_size (f_of_Z e3))
     else ret (fan_in, fan_out)) ;;
  let scale :=
    f_div (f_of_Z 1)
      (f_max (f_of_Z 1) (f_div (f_add fan_in fan_out) (f_of_Z 2))) in
  let limit := f_sqrt (f_mul (f_of_Z 3) scale) in
  let maxval := limit in
  let minval := f_neg limit in
  m <- (k <- Const (scalar_f (f_sub maxval minval)) ;;
        Multiply random_value k) ;;
  k <- Const (scalar_f minval) ;;
  result <- Add m k ;;
  ret result.

Definition Conv2DTranspose (input_sizes filter out_backprop : Input F)
  (strides : list Z) (padding : Padding) : Build F Output :=
  Conv2DBackpropInput input_sizes filter out_backprop strides padding.

End Ops.

(** ** The networks *)

(** The members of the class [Generator] that its constructor sets. *)
Module G.
Record members : Type := {
  w1 : Output; assign_w1 : Output;
  w1_wm : Output; assign_w1_wm : Output;
  w1_wv : Output; assign_w1_wv : Output;
  filter : Output; assign_filter : Output;
  filter_wm : Output; assign_filter_wm : Output;
  filter_wv : Output; assign_filter_wv : Output;
  filter2 : Output; assign_filter2 : Output;
  filter2_wm : Output; assign_filter2_wm : Output;
  filter2_wv : Output; assign_filter2_wv : Output;
  filter3 : Output; assign_filter3 : Output;
  filter3_wm : Output; assign_filter3_wm : Output;
  filter3_wv : Output; assign_filter3_wv : Output;
  output : Output
}.
End G.

(** The members of the class [Discriminator]. *)
Module D.
Record members : Type := {
  conv1_weights : Output; assign_conv1_weights : Output;
  conv1_biases : Output; assign_conv1_biases : Output;
  conv2_weights : Output; assign_conv2_weights : Output;
  conv2_biases : Output; assign_conv2_biases : Output;
  fc1_weights : Output; assign_fc1_weights : Output;
  fc1_biases : Output; assign_fc1_biases : Output;
  conv1_wm : Output; assign_conv1_wm : Output;
  conv1_wv : Output; assign_conv1_wv : Output;
  conv1_bm : Output; assign_conv1_bm : Output;
  conv1_bv : Output; assign_conv1_bv : Output;
  conv2_wm : Output; assign_conv2_wm : Output;
  conv2_wv : Output; assign_conv2_wv : Output;
  conv2_bm : Output; assign_conv2_bm : Output;
  conv2_bv : Output; assign_conv2_bv : Output;
  fc1_wm : Output; assign_fc1_wm : Output;
  fc1_wv : Output; assign_fc1_wv : Output;
  fc1_bm : Output; assign_fc1_bm : Output;
  fc1_bv : Output; assign_fc1_bv : Output;
  output : Output
}.
End D.

Section Networks.

Context {F : Type} {FA : FloatArith F}.

(** The constants of util.h, which is not part of the sources at hand. *)
Variables NOISE_DIM UNITS NUM_CHANNELS IMAGE_SIZE : Z.

Local Open Scope build_scope.
Local Open Scope Z_scope.

Definition Generator (batch_size : Z) : Build F G.members :=
  (* random noise input *)
  noise <- RandomNormal (In_Tensor (list_i32 [batch_size; NOISE_DIM]))
             DT_FLOAT ;;
  (* dense 1 *)
  w1 <- Variable' [NOISE_DIM; UNITS] DT_FLOAT ;;
  rate <- Const (list_f [f_lit 1 100]) ;;
  random_value <- RandomNormal (In_Tensor (list_i32 [NOISE_DIM; UNITS]))
                    DT_FLOAT ;;
  assign_w1 <- (m <- Multiply random_value rate ;; Assign w1 m) ;;
  dense <- MatMul noise w1 ;;
  w1_wm <- Variable' [NOISE_DIM; UNITS] DT_FLOAT ;;
  assign_w1_wm <- (z <- ZerosLike w1 ;; Assign w1_wm z) ;;
  w1_wv <- Variable' [NOISE_DIM; UNITS] DT_FLOAT ;;
  assign_w1_wv <- (z <- ZerosLike w1 ;; Assign w1_wv z) ;;
  (* BatchNormalization *)
  mean <- Const (list_f [f_of_Z 0]) ;;
  variance <- Const (list_f [f_of_Z 1]) ;;
  offset <- Const (list_f [f_of_Z 0]) ;;
  scale <- Const (list_f [f_of_Z 1]) ;;
  variance_epsilon <- Const (list_f [f_lit 1 1000]) ;;
  batchnorm <- BatchNormalization dense mean variance offset scale
                 variance_epsilon ;;
  (* LeakyReLU *)
  leakyrelu <- LeakyRelu batchnorm (f_lit 3 10) ;;
  (* Reshape *)
  reshape1 <- Reshape leakyrelu
                (In_Tensor (list_i32 [batch_size; 7; 7; 256])) ;;
  (* Conv2DTranspose 1 *)
  input_sizes <- Const (list_i32 [batch_size; 7; 7; 128]) ;;
  (* filter, aka kernel *)
  filter <- Variable' [5; 5; 128; 256] DT_FLOAT ;;
  random_value1 <- GlorotUniform [5; 5; 128; 256] ;;
  assign_filter <- Assign filter random_value1 ;;
  filter_wm <- Variable' [5; 5; 128; 256] DT_FLOAT ;;
  assign_filter_wm <- (z <- ZerosLike filter ;; Assign filter_wm z) ;;
  filter_wv <- Variable' [5; 5; 128; 256] DT_FLOAT ;;
  assign_filter_wv <- (z <- ZerosLike filter ;; Assign filter_wv z) ;;
  (* out_backprop, aka input. here it's reshape1 *)
  deconv1 <- Conv2DTranspose input_sizes filter reshape1 [1; 1; 1; 1] SAME ;;
  (* BatchNormalization 1, use FusedBatchNorm *)
  mean1 <- Const (list_f []) ;;
  variance1 <- Const (list_f []) ;;
  offset1 <- BroadcastTo (In_Tensor (scalar_f (f_of_Z 0)))
               (In_Tensor (list_i32 [128])) ;;
  scale1 <- BroadcastTo (In_Tensor (scalar_f (f_of_Z 1)))
              (In_Tensor (list_i32 [128])) ;;
  batchnorm1 <- FusedBatchNorm deconv1 scale1 offset1 mean1 variance1
                  (f_lit 1 1000) ;;
  (* LeakyReLU 1 *)
  leakyrelu1 <- LeakyRelu (y batchnorm1) (f_lit 3 10) ;;
  (* Conv2DTranspose 2 *)
  input_sizes2 <- Const (list_i32 [batch_size; 14; 14; 64]) ;;
  filter2 <- Variable' [5; 5; 64; 128] DT_FLOAT ;;
  random_value2 <- GlorotUniform [5; 5; 64; 128] ;;
  assign_filter2 <- Assign filter2 random_value2 ;;
  filter2_wm <- Variable' [5; 5; 64; 128] DT_FLOAT ;;
  assign_filter2_wm <- (z <- ZerosLike filter2 ;; Assign filter2_wm z) ;;
  filter2_wv <- Variable' [5; 5; 64; 128] DT_FLOAT ;;
  assign_filter2_wv <- (z <- ZerosLike filter2 ;; Assign filter2_wv z) ;;
  deconv2 <- Conv2DTranspose input_sizes2 filter2 leakyrelu1 [1; 2; 2; 1]
               SAME ;;
  (* BatchNormalization 2, use FusedBatchNorm *)
  offset2 <- BroadcastTo (In_Tensor (scalar_f (f_of_Z 0)))
               (In_Tensor (list_i32 [64])) ;;
  scale2 <- BroadcastTo (In_Tensor (scalar_f (f_of_Z 1)))
              (In_Tensor (list_i32 [64])) ;;
  batchnorm2 <- FusedBatchNorm deconv2 scale2 offset2 mean1 variance1
                  (f_lit 1 1000) ;;
  (* LeakyReLU 2 *)
  leakyrelu2 <- LeakyRelu (y batchnorm2) (f_lit 3 10) ;;
  (* Conv2DTranspose 3 *)
  input_sizes3 <- Const (list_i32 [batch_size; 28; 28; NUM_CHANNELS]) ;;
  filter3 <- Variable' [5; 5; NUM_CHANNELS; 64] DT_FLOAT ;;
  random_value3 <- GlorotUniform [5; 5; NUM_CHANNELS; 64] ;;
  assign_filter3 <- Assign filter3 random_value3 ;;
  filter3_wm <- Variable' [5; 5; NUM_CHANNELS; 64] DT_FLOAT ;;
  assign_filter3_wm <- (z <- ZerosLike filter3 ;; Assign filter3_wm z) ;;
  filter3_wv <- Variable' [5; 5; NUM_CHANNELS; 64] DT_FLOAT ;;
  assign_filter3_wv <- (z <- ZerosLike filter3 ;; Assign filter3_wv z) ;;
  output <- Conv2DTranspose input_sizes3 filter3 leakyrelu2 [1; 2; 2; 1]
              SAME ;;
  ret {| G.w1 := w1; G.assign_w1 := assign_w1;
         G.w1_wm := w1_wm; G.assign_w1_wm := assign_w1_wm;
         G.w1_wv := w1_wv; G.assign_w1_wv := assign_w1_wv;
         G.filter := filter; G.assign_filter := assign_filter;
         G.filter_wm := filter_wm; G.assign_filter_wm := assign_filter_wm;
         G.filter_wv := filter_wv; G.assign_filter_wv := assign_filter_wv;
         G.filter2 := filter2; G.assign_filter2 := assign_filter2;
         G.filter2_wm := filter2_wm; G.assign_filter2_wm := assign_filter2_wm;
         G.filter2_wv := filter2_wv; G.assign_filter2_wv := assign_filter2_wv;
         G.filter3 := filter3; G.assign_filter3 := assign_filter3;
         G.filter3_wm := filter3_wm; G.assign_filter3_wm := assign_filter3_wm;
         G.filter3_wv := filter3_wv; G.assign_filter3_wv := assign_filter3_wv;
         G.output := output |}.

(** The primary constructor.  The literal [0.3f] passed for the parameter
    [const int rate] of [Dropout] is converted to [int] at the call.  In
    [int s1 = IMAGE_SIZE; s1 = s1 / 4; s1 = std::pow(s1, 2) * 128;] the
    division of integers truncates; the power and the product are computed
    in [double], without rounding as long as the result fits the [int] it
    is stored in. *)
Definition Discriminator (inputs' : Input F) (batch_size : Z)
  : Build F D.members :=
  conv1_weights <- Variable' [5; 5; NUM_CHANNELS; 64] DT_FLOAT ;;
  random_value <- GlorotUniform [5; 5; NUM_CHANNELS; 64] ;;
  assign_conv1_weights <- Assign conv1_weights random_value ;;
  conv1_biases <- Variable' [64] DT_FLOAT ;;
  let b_zero_tensor := fill_f (f_of_Z 0) [64] in
  assign_conv1_biases <- Assign conv1_biases (In_Tensor b_zero_tensor) ;;
  conv2_weights <- Variable' [5; 5; 64; 128] DT_FLOAT ;;
  random_value2 <- GlorotUniform [5; 5; 64; 128] ;;
  assign_conv2_weights <- Assign conv2_weights random_value2 ;;
  conv2_biases <- Variable' [128] DT_FLOAT ;;
  assign_conv2_biases <-
    (c <- Const (fill_f (f_of_Z 0) [128]) ;; Assign conv2_biases c) ;;
  let s1 := IMAGE_SIZE in
  let s1 := Z.quot s1 4 in
  let s1 := s1 ^ 2 * 128 in
  fc1_weights <- Variable' [s1; 1] DT_FLOAT ;;
  random_value3 <- GlorotUniform [s1; 1] ;;
  assign_fc1_weights <- Assign fc1_weights random_value3 ;;
  fc1_biases <- Variable' [1] DT_FLOAT ;;
  assign_fc1_biases <-
    (c <- Const (fill_f (f_of_Z 0) [1]) ;; Assign fc1_biases c) ;;
  (* Gradient accum parameters start here *)
  conv1_wm <- Variable' [5; 5; NUM_CHANNELS; 64] DT_FLOAT ;;
  assign_conv1_wm <- (z <- ZerosLike conv1_weights ;; Assign conv1_wm z) ;;
  conv1_wv <- Variable' [5; 5; NUM_CHANNELS; 64] DT_FLOAT ;;
  assign_conv1_wv <- (z <- ZerosLike conv1_weights ;; Assign conv1_wv z) ;;
  conv1_bm <- Variable' [64] DT_FLOAT ;;
  assign_conv1_bm <- (z <- ZerosLike conv1_biases ;; Assign conv1_bm z) ;;
  conv1_bv <- Variable' [64] DT_FLOAT ;;
  assign_conv1_bv <- (z <- ZerosLike conv1_biases ;; Assign conv1_bv z) ;;
  conv2_wm <- Variable' [5; 5; 64; 128] DT_FLOAT ;;
  assign_conv2_wm <- (z <- ZerosLike conv2_weights ;; Assign conv2_wm z) ;;
  conv2_wv <- Variable' [5; 5; 64; 128] DT_FLOAT ;;
  assign_conv2_wv <- (z <- ZerosLike conv2_weights ;; Assign conv2_wv z) ;;
  conv2_bm <- Variable' [128] DT_FLOAT ;;
  assign_conv2_bm <- (z <- ZerosLike conv2_biases ;; Assign conv2_bm z) ;;
  conv2_bv <- Variable' [128] DT_FLOAT ;;
  assign_conv2_bv <- (z <- ZerosLike conv2_biases ;; Assign conv2_bv z) ;;
  fc1_wm <- Variable' [s1; 1] DT_FLOAT ;;
  assign_fc1_wm <- (z <- ZerosLike fc1_weights ;; Assign fc1_wm z) ;;
  fc1_wv <- Variable' [s1; 1] DT_FLOAT ;;
  assign_fc1_wv <- (z <- ZerosLike fc1_weights ;; Assign fc1_wv z) ;;
  fc1_bm <- Variable' [1] DT_FLOAT ;;
  assign_fc1_bm <- (z <- ZerosLike fc1_biases ;; Assign fc1_bm z) ;;
  fc1_bv <- Variable' [1] DT_FLOAT ;;
  assign_fc1_bv <- (z <- ZerosLike fc1_biases ;; Assign fc1_bv z) ;;
  (* Convnet Model begin *)
  conv2d_1 <- Conv2D inputs' conv1_weights [1; 2; 2; 1] SAME ;;
  relu_1 <- (b <- BiasAdd conv2d_1 conv1_biases ;;
             LeakyRelu b (f_lit 3 10)) ;;
  dropout_1 <- Dropout relu_1 (f_to_Z (f_lit 3 10 : F)) ;;
  conv2d_2 <- Conv2D dropout_1 conv2_weights [1; 2; 2; 1] SAME ;;
  relu_2 <- (b <- BiasAdd conv2d_2 conv2_biases ;;
             LeakyRelu b (f_lit 3 10)) ;;
  dropout_2 <- Dropout relu_2 (f_to_Z (f_lit 3 10 : F)) ;;
  (* reshape *)
  reshape1 <- Reshape dropout_2 (In_Tensor (list_i32 [batch_size; s1])) ;;
  (* model output *)
  output <- (m <- MatMul reshape1 fc1_weights ;; BiasAdd m fc1_biases) ;;
  (* Convnet Model ends *)
  ret {| D.conv1_weights := conv1_weights;
         D.assign_conv1_weights := assign_conv1_weights;
         D.conv1_biases := conv1_biases;
         D.assign_conv1_biases := assign_conv1_biases;
         D.conv2_weights := conv2_weights;
         D.assign_conv2_weights := assign_conv2_weights;
         D.conv2_biases := conv2_biases;
         D.assign_conv2_biases := assign_conv2_biases;
         D.fc1_weights := fc1_weights;
         D.assign_fc1_weights := assign_fc1_weights;
         D.fc1_biases := fc1_biases; D.assign_fc1_biases := assign_fc1_biases;
         D.conv1_wm := conv1_wm; D.assign_conv1_wm := assign_conv1_wm;
         D.conv1_wv := conv1_wv; D.assign_conv1_wv := assign_conv1_wv;
         D.conv1_bm := conv1_bm; D.assign_conv1_bm := assign_conv1_bm;
         D.conv1_bv := conv1_bv; D.assign_conv1_bv := assign_conv1_bv;
         D.conv2_wm := conv2_wm; D.assign_conv2_wm := assign_conv2_wm;
         D.conv2_wv := conv2_wv; D.assign_conv2_wv := assign_conv2_wv;
         D.conv2_bm := conv2_bm; D.assign_conv2_bm := assign_conv2_bm;
         D.conv2_bv := conv2_bv; D.assign_conv2_bv := assign_conv2_bv;
         D.fc1_wm := fc1_wm; D.assign_fc1_wm := assign_fc1_wm;
         D.fc1_wv := fc1_wv; D.assign_fc1_wv := assign_fc1_wv;
         D.fc1_bm := fc1_bm; D.assign_fc1_bm := assign_fc1_bm;
         D.fc1_bv := fc1_bv; D.assign_fc1_bv := assign_fc1_bv;
         D.output := output |}.

(** The constructor that takes an existing [Discriminator]: it reads the
    weights of [disc] and sets no member but [output], which is what the
    embedding returns. *)
Definition Discriminator_shared (disc : D.members) (inputs' : Input F)
  (batch_size : Z) : Build F Output :=
  (* Convnet Model begin *)
  conv2d_1 <- Conv2D inputs' (D.conv1_weights disc) [1; 2; 2; 1] SAME ;;
  relu_1 <- (b <- BiasAdd conv2d_1 (D.conv1_biases disc) ;;
             LeakyRelu b (f_lit 3 10)) ;;
  dropout_1 <- Dropout relu_1 (f_to_Z (f_lit 3 10 : F)) ;;
  conv2d_2 <- Conv2D dropout_1 (D.conv2_weights disc) [1; 2; 2; 1] SAME ;;
  relu_2 <- (b <- BiasAdd conv2d_2 (D.conv2_biases disc) ;;
             LeakyRelu b (f_lit 3 10)) ;;
  dropout_2 <- Dropout relu_2 (f_to_Z (f_lit 3 10 : F)) ;;
  let s1 := IMAGE_SIZE in
  let s1 := Z.quot s1 4 in
  let s1 := s1 ^ 2 * 128 in
  (* reshape *)
  reshape1 <- Reshape dropout_2 (In_Tensor (list_i32 [batch_size; s1])) ;;
  (* model output *)
  m <- MatMul reshape1 (D.fc1_weights disc) ;;
  BiasAdd m (D.fc1_biases disc).

End Networks.

(** * The vocabulary of the statements *)

(** ** Reading a graph back *)

Section Expressions.

Context {F : Type} {FA : FloatArith F}.

#[local] Set Warnings "-register-all".

(** The expression an output computes, as a tree.  Its leaves are the
    outputs of the nodes that were in the graph before the construction
    under study started, and the variables. *)
Inductive tm : Type :=
| T_ref (o : Output)
| T_op (k : OpKind) (ats : list (Attr F)) (args : list tm) (ix : nat).

(** [tm_at base g o]: the tree of output [o] in graph [g], where the nodes
    numbered below [base] are leaves. *)
Fixpoint tm_at (base : nat) (g : list (NodeDef F)) (o : Output) : tm :=
  match g with
  | [] => T_ref o
  | n :: g' =>
      if Nat.eqb (node o) (length g') then
        if Nat.ltb (node o) base || OpKind_eqb (op n) Op_Variable
        then T_ref o
        else T_op (op n) (attrs n) (map (tm_at base g') (inputs n)) (index o)
      else tm_at base g' o
  end.

(** The tree of [o] after a construction that started in scope [s0] and
    ended in scope [s1]. *)
Definition expression (s0 s1 : Scope F) (o : Output) : tm :=
  tm_at (length (graph s0)) (graph s1) o.

(** The node an output belongs to. *)
Fixpoint node_of (g : list (NodeDef F)) (o : Output) : option (NodeDef F) :=
  match g with
  | [] => None
  | n :: g' =>
      if Nat.eqb (node o) (length g') then Some n else node_of g' o
  end.

(** An operand as a tree: an output of the initial graph is a leaf, a value
    of the program text is the Const node built for it. *)
Definition operand (i : Input F) : tm :=
  match i with
  | In_Output o => T_ref o
  | In_Tensor t => T_op Op_Const [A_value t; A_dtype (t_dtype t)] [] 0
  end.

(** An operand that names a node names one of the scope. *)
Definition operand_in (s : Scope F) (i : Input F) : Prop :=
  match i with
  | In_Output o => node o < length (graph s)
  | In_Tensor _ => True
  end.

End Expressions.

Arguments tm : clear implicits.

(** Shorthand for the trees of the operations. *)
Section Trees.

Context {F : Type}.

Definition t_Add (a b : tm F) : tm F := T_op Op_Add [] [a; b] 0.
Definition t_Sub (a b : tm F) : tm F := T_op Op_Sub [] [a; b] 0.
Definition t_Multiply (a b : tm F) : tm F := T_op Op_Multiply [] [a; b] 0.
Definition t_Div (a b : tm F) : tm F := T_op Op_Div [] [a; b] 0.
Definition t_Negate (a : tm F) : tm F := T_op Op_Negate [] [a] 0.
Definition t_Rsqrt (a : tm F) : tm F := T_op Op_Rsqrt [] [a] 0.
Definition t_Exp (a : tm F) : tm F := T_op Op_Exp [] [a] 0.
Definition t_Log1p (a : tm F) : tm F := T_op Op_Log1p [] [a] 0.
Definition t_Floor (a : tm F) : tm F := T_op Op_Floor [] [a] 0.
Definition t_ZerosLike (a : tm F) : tm F := T_op Op_ZerosLike [] [a] 0.
Definition t_Shape (a : tm F) : tm F := T_op Op_Shape [] [a] 0.
Definition t_GreaterEqual (a b : tm F) : tm F :=
  T_op Op_GreaterEqual [] [a; b] 0.
Definition t_SelectV2 (c a b : tm F) : tm F :=
  T_op Op_SelectV2 [] [c; a; b] 0.
Definition t_Cast (a : tm F) (DstT : DataType) : tm F :=
  T_op Op_Cast [A_DstT DstT] [a] 0.
Definition t_Const (t : Tensor F) : tm F :=
  T_op Op_Const [A_value t; A_dtype (t_dtype t)] [] 0.
Definition t_RandomUniform (shape : tm F) (dtype : DataType) : tm F :=
  T_op Op_RandomUniform [A_dtype dtype] [shape] 0.
Definition t_RandomNormal (shape : tm F) (dtype : DataType) : tm F :=
  T_op Op_RandomNormal [A_dtype dtype] [shape] 0.
Definition t_MatMul (a b : tm F) : tm F := T_op Op_MatMul [] [a; b] 0.
Definition t_BiasAdd (a b : tm F) : tm F := T_op Op_BiasAdd [] [a; b] 0.
Definition t_Reshape (a shape : tm F) : tm F :=
  T_op Op_Reshape [] [a; shape] 0.
Definition t_BroadcastTo (a shape : tm F) : tm F :=
  T_op Op_BroadcastTo [] [a; shape] 0.
Definition t_LeakyRelu (a : tm F) (alpha : F) : tm F :=
  T_op Op_LeakyRelu [A_alpha alpha] [a] 0.
Definition t_Conv2D (input filter : tm F) (strides : list Z)
  (padding : Padding) : tm F :=
  T_op Op_Conv2D [A_strides strides; A_padding padding] [input; filter] 0.
Definition t_Conv2DBackpropInput (input_sizes filter out_backprop : tm F)
  (strides : list Z) (padding : Padding) : tm F :=
  T_op Op_Conv2DBackpropInput [A_strides strides; A_padding padding]
    [input_sizes; filter; out_backprop] 0.
(** The output [y] of a FusedBatchNorm node. *)
Definition t_FusedBatchNorm_y (x scale offset mean variance : tm F)
  (epsilon : F) : tm F :=
  T_op Op_FusedBatchNorm [A_epsilon epsilon]
    [x; scale; offset; mean; variance] 0.

End Trees.

(** ** What a tree computes, element by element

    The elementwise operations of the framework act on each element of
    their operands on its own, an operand with a single element being used
    at every position.  [denote] gives the element a tree computes at one
    position, over the real numbers: [rho] gives the element of every leaf
    at that position and [u] the number the RandomUniform node of the tree
    draws there.  Operations that are not elementwise have no denotation. *)
Section Denotation.

Context {F : Type} {FA : FloatArith F}.

Variable rho : Output -> R.
Variable u : R.

Local Open Scope R_scope.

(** The element of a Const node that holds one float. *)
Definition const_element (ats : list (Attr F)) : option R :=
  match ats with
  | A_value t :: _ =>
      match t_data t with
      | FloatData [v] => Some (f_val v)
      | _ => None
      end
  | _ => None
  end.

Definition lift1 (f : R -> R) (a : option R) : option R :=
  match a with
  | Some x => Some (f x)
  | None => None
  end.

Definition lift2 (f : R -> R -> R) (a b : option R) : option R :=
  match a, b with
  | Some x, Some y => Some (f x y)
  | _, _ => None
  end.

(** [Cast] is only denoted to [DT_FLOAT], where it changes nothing, and
    [SelectV2] only under a [GreaterEqual] condition. *)
Fixpoint denote (t : tm F) : option R :=
  match t with
  | T_ref o => Some (rho o)
  | T_op k ats args _ =>
      match k, args with
      | Op_Const, [] => const_element ats
      | Op_Add, [a; b] => lift2 Rplus (denote a) (denote b)
      | Op_Sub, [a; b] => lift2 Rminus (denote a) (denote b)
      | Op_Multiply, [a; b] => lift2 Rmult (denote a) (denote b)
      | Op_Div, [a; b] => lift2 Rdiv (denote a) (denote b)
      | Op_Negate, [a] => lift1 Ropp (denote a)
      | Op_Rsqrt, [a] => lift1 (fun x => / sqrt x) (denote a)
      | Op_Exp, [a] => lift1 exp (denote a)
      | Op_Log1p, [a] => lift1 (fun x => ln (1 + x)) (denote a)
      | Op_Floor, [a] => lift1 (fun x => IZR (Zfloor x)) (denote a)
      | Op_ZerosLike, [a] => lift1 (fun _ => 0) (denote a)
      | Op_Cast, [a] =>
          match ats with
          | [A_DstT DT_FLOAT] => denote a
          | _ => None
          end
      | Op_RandomUniform, [_] => Some u
      | Op_SelectV2, [T_op Op_GreaterEqual _ [p; q] _; a; b] =>
          match denote p, denote q, denote a, denote b with
          | Some p', Some q', Some a', Some b' =>
              Some (if Rle_dec q' p' then a' else b')
          | _, _, _, _ => None
          end
      | _, _ => None
      end
  end.

End Denotation.

(** ** The formulas of the comments and the trees of the helpers *)

(** The formula of the comment above [BatchNormalization], which quotes
    tf.nn.batch_normalization: [inv = rsqrt(variance + variance_epsilon)],
    multiplied by [scale] when there is one, and the result
    [x * inv + (offset - mean * inv)]. *)
Definition batch_normalization_reference
  (x mean variance offset : R) (scale : option R) (variance_epsilon : R) : R :=
  let inv := (/ sqrt (variance + variance_epsilon))%R in
  let inv := match scale with
             | Some sc => (inv * sc)%R
             | None => inv
             end in
  (x * inv + (offset - mean * inv))%R.

(** The tree [BatchNormalization] builds. *)
Definition BatchNormalization_tree {F} (x mean variance offset eps : tm F)
  : tm F :=
  let inv := t_Rsqrt (t_Add variance eps) in
  t_Add (t_Multiply x (t_Cast inv DT_FLOAT))
        (t_Cast (t_Sub offset (t_Multiply mean inv)) DT_FLOAT).

(** The tree [SigmoidCrossEntropyWithLogits] builds. *)
Definition SigmoidCrossEntropyWithLogits_tree {F} (labels logits : tm F)
  : tm F :=
  let zeros := t_ZerosLike logits in
  let cond := t_GreaterEqual logits zeros in
  let relu_logits := t_SelectV2 cond logits zeros in
  let neg_abs_logits := t_SelectV2 cond (t_Negate logits) logits in
  t_Add (t_Sub relu_logits (t_Multiply logits labels))
        (t_Log1p (t_Exp neg_abs_logits)).

(** The logistic loss in the form the comment of the source gives it:
    [max(x, 0) - x * z + log(1 + exp(-abs(x)))]. *)
Definition logistic_loss (x z : R) : R :=
  (Rmax x 0 - x * z + ln (1 + exp (- Rabs x)))%R.

(** The tree [Dropout] builds around [x] for a keep probability [keep]. *)
Definition Dropout_tree {F} (keep : F) (x : tm F) : tm F :=
  t_Multiply
    (t_Div x (t_Const (list_f [keep])))
    (t_Floor (t_Add (t_RandomUniform (t_Shape x) DT_FLOAT)
                    (t_Const (list_f [keep])))).

(** Dropout at a rate [rate]: an element is dropped with probability
    [rate], which on a uniform sample [u] of [0, 1) is the event [u < rate],
    and a kept element is divided by the keep probability [1 - rate]. *)
Definition dropout_reference (rate x u : R) : R :=
  if Rlt_dec u rate then 0%R else (x / (1 - rate))%R.

Section GlorotVocabulary.

Context {F : Type} {FA : FloatArith F}.

(** [limit = sqrt(3 * scale)] with
    [scale = 1 / max(1, (fan_in + fan_out) / 2)], in the arithmetic of [F]. *)
Definition glorot_limit (fan_in fan_out : F) : F :=
  f_sqrt
    (f_mul (f_of_Z 3)
       (f_div (f_of_Z 1)
          (f_max (f_of_Z 1) (f_div (f_add fan_in fan_out) (f_of_Z 2))))).

(** The tree [GlorotUniform] builds for a shape and a limit: the sample
    times [maxval - minval], plus [minval]. *)
Definition GlorotUniform_tree (shape : list Z) (limit : F) : tm F :=
  t_Add
    (t_Multiply (t_RandomUniform (t_Const (list_i64 shape)) DT_FLOAT)
                (t_Const (scalar_f (f_sub limit (f_neg limit)))))
    (t_Const (scalar_f (f_neg limit))).

(** The fans of a shape of four elements: the receptive field
    [1.0f * shape[0] * shape[1]] times [shape[2]] and times [shape[3]]. *)
Definition fans_4D (h w c_in c_out : Z) : F * F :=
  let receptive_field_size := f_mul (f_mul (f_of_Z 1) (f_of_Z h)) (f_of_Z w) in
  (f_mul receptive_field_size (f_of_Z c_in),
   f_mul receptive_field_size (f_of_Z c_out)).

(** The fans [GlorotUniform] takes from a shape, when it reads inside the
    vector. *)
Definition fans_of (shape : list Z) : option (F * F) :=
  match shape with
  | [h; w; c_in; c_out] => Some (fans_4D h w c_in c_out)
  | a :: b :: _ => Some (f_of_Z a, f_of_Z b)
  | _ => None
  end.

End GlorotVocabulary.

(** ** The trees of the networks *)

Section NetworkTrees.

Context {F : Type} {FA : FloatArith F}.

Variables NOISE_DIM UNITS NUM_CHANNELS IMAGE_SIZE : Z.

Local Open Scope Z_scope.

(** How many nodes of a graph instantiate a given operation. *)
Definition count_op (k : OpKind) (g : list (NodeDef F)) : nat :=
  length (List.filter (fun n => OpKind_eqb (op n) k) g).

(** One upsampling stage: a transposed convolution of [x] to the sizes
    [input_sizes] with the kernel [kernel]. *)
Definition upsample_tree (input_sizes : list Z) (kernel x : tm F)
  (strides : list Z) : tm F :=
  t_Conv2DBackpropInput (t_Const (list_i32 input_sizes)) kernel x strides SAME.

(** Fused batch normalization over [channels] channels, with scale 1,
    offset 0, empty mean and variance and epsilon 0.001, then leaky ReLU. *)
Definition fused_norm_relu_tree (channels : Z) (x : tm F) : tm F :=
  let mean1 := t_Const (list_f []) in
  let variance1 := t_Const (list_f []) in
  let offset := t_BroadcastTo (t_Const (scalar_f (f_of_Z 0)))
                  (t_Const (list_i32 [channels])) in
  let scale := t_BroadcastTo (t_Const (scalar_f (f_of_Z 1)))
                 (t_Const (list_i32 [channels])) in
  t_LeakyRelu
    (t_FusedBatchNorm_y x scale offset mean1 variance1 (f_lit 1 1000))
    (f_lit 3 10).

(** The pipeline of the Generator, from the noise to the output, over the
    variables [w1], [filter], [filter2] and [filter3]. *)
Definition Generator_tree (batch_size : Z) (w1 filter filter2 filter3 : tm F)
  : tm F :=
  let noise :=
    t_RandomNormal (t_Const (list_i32 [batch_size; NOISE_DIM])) DT_FLOAT in
  let dense := t_MatMul noise w1 in
  let batchnorm :=
    BatchNormalization_tree dense
      (t_Const (list_f [f_of_Z 0])) (t_Const (list_f [f_of_Z 1]))
      (t_Const (list_f [f_of_Z 0])) (t_Const (list_f [f_lit 1 1000])) in
  let leakyrelu := t_LeakyRelu batchnorm (f_lit 3 10) in
  let reshape1 :=
    t_Reshape leakyrelu (t_Const (list_i32 [batch_size; 7; 7; 256])) in
  let deconv1 :=
    upsample_tree [batch_size; 7; 7; 128] filter reshape1 [1; 1; 1; 1] in
  let leakyrelu1 := fused_norm_relu_tree 128 deconv1 in
  let deconv2 :=
    upsample_tree [batch_size; 14; 14; 64] filter2 leakyrelu1 [1; 2; 2; 1] in
  let leakyrelu2 := fused_norm_relu_tree 64 deconv2 in
  upsample_tree [batch_size; 28; 28; NUM_CHANNELS] filter3 leakyrelu2
    [1; 2; 2; 1].

(** One stage of the Discriminator: convolution of stride 2 with padding
    SAME, bias, leaky ReLU of slope 0.3 and the tree of [Dropout] for the
    keep probability [keep]. *)
Definition conv_stage_tree (keep : F) (x weights biases : tm F) : tm F :=
  Dropout_tree keep
    (t_LeakyRelu
       (t_BiasAdd (t_Conv2D x weights [1; 2; 2; 1] SAME) biases)
       (f_lit 3 10)).

(** The layers of the Discriminator over its six variables: two stages,
    the reshape to [batch_size, s1] and the dense classifier. *)
Definition Discriminator_tree (keep : F) (x : tm F) (batch_size s1 : Z)
  (conv1_weights conv1_biases conv2_weights conv2_biases
   fc1_weights fc1_biases : tm F) : tm F :=
  let dropout_1 := conv_stage_tree keep x conv1_weights conv1_biases in
  let dropout_2 :=
    conv_stage_tree keep dropout_1 conv2_weights conv2_biases in
  let reshape1 :=
    t_Reshape dropout_2 (t_Const (list_i32 [batch_size; s1])) in
  t_BiasAdd (t_MatMul reshape1 fc1_weights) fc1_biases.

(** The keep probability the two [Dropout] calls compute from [0.3f]. *)
Definition keep_prob_of_call : F := f_of_Z (1 - f_to_Z (f_lit 3 10 : F)).

(** The tree over the weights of the members [d]. *)
Definition Discriminator_forward (d : D.members) (x : tm F) (batch_size : Z)
  : tm F :=
  Discriminator_tree keep_prob_of_call x batch_size
    ((Z.quot IMAGE_SIZE 4) ^ 2 * 128)
    (T_ref (D.conv1_weights d)) (T_ref (D.conv1_biases d))
    (T_ref (D.conv2_weights d)) (T_ref (D.conv2_biases d))
    (T_ref (D.fc1_weights d)) (T_ref (D.fc1_biases d)).

(** A Variable node of a given shape. *)
Definition Variable_node (shape : list Z) : NodeDef F :=
  {| op := Op_Variable; inputs := [];
     attrs := [A_shape shape; A_dtype DT_FLOAT] |}.

End NetworkTrees.

(** ** Who writes to a variable *)

Section WritersVocabulary.

Context {F : Type} {FA : FloatArith F}.

(** Of the operations this file builds, [Assign] is the one that writes
    to a variable: the variable is its first operand. *)
Definition assign_target (n : NodeDef F) : option nat :=
  match op n, inputs n with
  | Op_Assign, r :: _ => Some (node r)
  | _, _ => None
  end.

Definition writes_to (v : Output) (n : NodeDef F) : bool :=
  match assign_target n with
  | Some t => Nat.eqb t (node v)
  | None => false
  end.

(** The nodes of a graph that write to [v]. *)
Definition writers (g : list (NodeDef F)) (v : Output) : list (NodeDef F) :=
  List.filter (writes_to v) g.

(** The variables the nodes of a graph write to, one entry per writer. *)
Definition targets (g : list (NodeDef F)) : list nat :=
  flat_map (fun n => match assign_target n with
                     | Some t => [t]
                     | None => []
                     end) g.

Definition Assign_node (ref value : Output) : NodeDef F :=
  {| op := Op_Assign; inputs := [ref; value]; attrs := [] |}.

Definition ZerosLike_node (x : Output) : NodeDef F :=
  {| op := Op_ZerosLike; inputs := [x]; attrs := [] |}.

(** [acc] is zero-initialised once in [g]: the graph holds one node that
    writes to [acc], an [Assign] of [ZerosLike(param)], and [acc] and
    [param] are variables of one shape. *)
Definition zero_initialised (g : list (NodeDef F)) (acc param : Output)
  : Prop :=
  exists z shape,
    writers g acc = [Assign_node acc z] /\
    node_of g z = Some (ZerosLike_node param) /\
    node_of g acc = Some (Variable_node shape) /\
    node_of g param = Some (Variable_node shape).

(** The invariant of the graphs this file builds: no two nodes write to
    the same variable, and a node only writes to a variable of the graph. *)
Definition single_writers (g : list (NodeDef F)) : Prop :=
  NoDup (targets g) /\ Forall (fun t => t < length g) (targets g).

(** What a construction may add on top of a graph of [base] nodes to keep
    the invariant: writers of distinct variables, all of them new. *)
Definition fresh_writers (base : nat) (added : list (NodeDef F)) : Prop :=
  NoDup (targets added) /\
  Forall (fun t => base <= t < length added + base) (targets added).

(** A construction that only adds nodes, none of which writes. *)
Definition adds_no_writer {A} (c : Build F A) : Prop :=
  forall s a s',
    c s = Some (a, s') ->
    exists added, graph s' = added ++ graph s /\ targets added = [].

(** A construction that returns in every scope. *)
Definition always_returns {A} (c : Build F A) : Prop :=
  forall s, exists a s', c s = Some (a, s').

End WritersVocabulary.

(** The moment accumulators of the Generator, each with the weight it
    belongs to. *)
Definition G_accumulators (gen : G.members) : list (Output * Output) :=
  [ (G.w1_wm gen, G.w1 gen); (G.w1_wv gen, G.w1 gen);
    (G.filter_wm gen, G.filter gen); (G.filter_wv gen, G.filter gen);
    (G.filter2_wm gen, G.filter2 gen); (G.filter2_wv gen, G.filter2 gen);
    (G.filter3_wm gen, G.filter3 gen); (G.filter3_wv gen, G.filter3 gen) ].

(** The moment accumulators of the Discriminator, each with the weight or
    the bias it belongs to. *)
Definition D_accumulators (d : D.members) : list (Output * Output) :=
  [ (D.conv1_wm d, D.conv1_weights d); (D.conv1_wv d, D.conv1_weights d);
    (D.conv1_bm d, D.conv1_biases d); (D.conv1_bv d, D.conv1_biases d);
    (D.conv2_wm d, D.conv2_weights d); (D.conv2_wv d, D.conv2_weights d);
    (D.conv2_bm d, D.conv2_biases d); (D.conv2_bv d, D.conv2_biases d);
    (D.fc1_wm d, D.fc1_weights d); (D.fc1_wv d, D.fc1_weights d);
    (D.fc1_bm d, D.fc1_biases d); (D.fc1_bv d, D.fc1_biases d) ].

(** What the construction of a network establishes for an accumulator
    [acc] of the weight [param], in terms of the nodes [added] and of the
    graph [g] it ends with. *)
Definition initialised_by {F} (added g : list (NodeDef F))
  (ap : Output * Output) : Prop :=
  exists z shape,
    In (Assign_node (fst ap) z) added /\
    node_of g z = Some (ZerosLike_node (snd ap)) /\
    node_of g (fst ap) = Some (Variable_node shape) /\
    node_of g (snd ap) = Some (Variable_node shape).

(** ** Programs over the constructions of this file *)

Section ProgramsVocabulary.

Context {F : Type} {FA : FloatArith F}.

Variables NOISE_DIM UNITS NUM_CHANNELS IMAGE_SIZE : Z.

Local Open Scope build_scope.

(** A call of one of the constructions of nn_ops_rkz.cc, with its
    arguments. *)
Inductive call : Type :=
| Call_BatchNormalization
    (x mean variance offset scale variance_epsilon : Input F)
| Call_Dropout (x : Input F) (rate : Z)
| Call_SigmoidCrossEntropyWithLogits (labels logits : Input F)
| Call_GlorotUniform (shape : list Z)
| Call_Conv2DTranspose (input_sizes filter out_backprop : Input F)
    (strides : list Z) (padding : Padding)
| Call_Generator (batch_size : Z)
| Call_Discriminator (inputs' : Input F) (batch_size : Z)
| Call_Discriminator_shared (disc : D.members) (inputs' : Input F)
    (batch_size : Z).

(** The calls the language defines: [GlorotUniform] reads the first two
    elements of its shape. *)
Definition call_defined (c : call) : Prop :=
  match c with
  | Call_GlorotUniform shape => 2 <= length shape
  | _ => True
  end.

(** Runs a call and returns the accumulators it declares, each with its
    weight. *)
Definition run_call (c : call) : Build F (list (Output * Output)) :=
  match c with
  | Call_BatchNormalization x mean variance offset scale eps =>
      _ <- BatchNormalization x mean variance offset scale eps ;; ret []
  | Call_Dropout x rate =>
      _ <- Dropout x rate ;; ret []
  | Call_SigmoidCrossEntropyWithLogits labels logits =>
      _ <- SigmoidCrossEntropyWithLogits labels logits ;; ret []
  | Call_GlorotUniform shape =>
      _ <- GlorotUniform shape ;; ret []
  | Call_Conv2DTranspose input_sizes filter out_backprop strides padding =>
      _ <- Conv2DTranspose input_sizes filter out_backprop strides padding ;;
      ret []
  | Call_Generator batch_size =>
      gen <- Generator NOISE_DIM UNITS NUM_CHANNELS batch_size ;;
      ret (G_accumulators gen)
  | Call_Discriminator inputs' batch_size =>
      d <- Discriminator NUM_CHANNELS IMAGE_SIZE inputs' batch_size ;;
      ret (D_accumulators d)
  | Call_Discriminator_shared disc inputs' batch_size =>
      _ <- Discriminator_shared IMAGE_SIZE disc inputs' batch_size ;; ret []
  end.

(** Runs a sequence of calls in one scope. *)
Fixpoint run_calls (cs : list call) : Build F (list (Output * Output)) :=
  match cs with
  | [] => ret []
  | c :: cs' =>
      accs <- run_call c ;;
      accs' <- run_calls cs' ;;
      ret (accs ++ accs')
  end.

Definition zero_initialised_in (g : list (NodeDef F)) (ap : Output * Output)
  : Prop :=
  zero_initialised g (fst ap) (snd ap).

End ProgramsVocabulary.

(** A program: a Generator, a Discriminator on its output (node 74 of the
    graph) and one more initializer.  It is run below with the constants
    NOISE_DIM = 100, UNITS = 12544, NUM_CHANNELS = 1 and IMAGE_SIZE = 28. *)
Definition sample_program : list (call (F := Binary32.float32)) :=
  [ Call_Generator 2;
    Call_Discriminator (In_Output {| node := 74; index := 0 |}) 2;
    Call_GlorotUniform [3; 3]%Z ].

(** ** Initial values, well-formed graphs *)

(** The tree of an [Assign] node. *)
Definition t_Assign {F} (ref value : tm F) : tm F :=
  T_op Op_Assign [] [ref; value] 0.

Section InitialisationVocabulary.

Context {F : Type} {FA : FloatArith F}.

(** What a construction that led from scope [s0] to scope [s1] did for the
    variable [v]: [v] is a Variable node of shape [shape], the member
    [assign] is an [Assign] of the tree [value] to [v], and the node of
    [assign] is the one node of the graph that writes to [v]. *)
Definition initialised_with (s0 s1 : Scope F) (v assign : Output)
  (shape : list Z) (value : tm F) : Prop :=
  node_of (graph s1) v = Some (Variable_node shape) /\
  expression s0 s1 assign = t_Assign (T_ref v) value /\
  exists z,
    node_of (graph s1) assign = Some (Assign_node v z) /\
    writers (graph s1) v = [Assign_node v z].

(** The initial value of a kernel of four dimensions and of a matrix: the
    tree of [GlorotUniform] with the limit of the fans of the shape. *)
Definition Glorot_4D_tree (h w c_in c_out : Z) : tm F :=
  GlorotUniform_tree [h; w; c_in; c_out]
    (glorot_limit (fst (fans_4D h w c_in c_out))
                  (snd (fans_4D h w c_in c_out))).

Definition Glorot_2D_tree (a b : Z) : tm F :=
  GlorotUniform_tree [a; b] (glorot_limit (f_of_Z a) (f_of_Z b)).

(** A graph in which every operand of every node is an output of a node
    built before it. *)
Fixpoint well_formed (g : list (NodeDef F)) : Prop :=
  match g with
  | [] => True
  | n :: g' =>
      Forall (fun i => node i < length g') (inputs n) /\ well_formed g'
  end.

(** The operands a call reads are in the scope it is run in.  The [scale]
    of [BatchNormalization] is not read; of an existing Discriminator the
    weight-sharing constructor reads the six weights and biases. *)
Definition call_operands_in (s : Scope F) (c : call (F := F)) : Prop :=
  match c with
  | Call_BatchNormalization x mean variance offset _ eps =>
      operand_in s x /\ operand_in s mean /\ operand_in s variance /\
      operand_in s offset /\ operand_in s eps
  | Call_Dropout x _ => operand_in s x
  | Call_SigmoidCrossEntropyWithLogits labels logits =>
      operand_in s labels /\ operand_in s logits
  | Call_GlorotUniform _ => True
  | Call_Conv2DTranspose input_sizes filter out_backprop _ _ =>
      operand_in s input_sizes /\ operand_in s filter /\
      operand_in s out_backprop
  | Call_Generator _ => True
  | Call_Discriminator inputs' _ => operand_in s inputs'
  | Call_Discriminator_shared disc inputs' _ =>
      operand_in s inputs' /\
      node (D.conv1_weights disc) < length (graph s) /\
      node (D.conv1_biases disc) < length (graph s) /\
      node (D.conv2_weights disc) < length (graph s) /\
      node (D.conv2_biases disc) < length (graph s) /\
      node (D.fc1_weights disc) < length (graph s) /\
      node (D.fc1_biases disc) < length (graph s)
  end.

End InitialisationVocabulary.

Section ProgramsInScope.

Context {F : Type} {FA : FloatArith F}.

Variables NOISE_DIM UNITS NUM_CHANNELS IMAGE_SIZE : Z.

(** Every call of a sequence finds its operands in the scope the calls
    before it have left. *)
Fixpoint operands_in_scope (cs : list call) (s : Scope F) : Prop :=
  match cs with
  | [] => True
  | c :: cs' =>
      call_operands_in s c /\
      match run_call NOISE_DIM UNITS NUM_CHANNELS IMAGE_SIZE c s with
      | Some (_, s1) => operands_in_scope cs' s1
      | None => True
      end
  end.

End ProgramsInScope.

(** ** Trees relative to an earlier scope *)

(** [rebase base g t]: the tree [t], whose leaves are outputs of the graph
    [g], with every leaf replaced by its tree in [g] over the nodes numbered
    below [base]. *)
Fixpoint rebase {F} (base : nat) (g : list (NodeDef F)) (t : tm F) : tm F :=
  match t with
  | T_ref o => tm_at base g o
  | T_op k ats args ix => T_op k ats (map (rebase base g) args) ix
  end.

(** * Lemmas and theorems *)

(** ** Reading a graph back: lemmas and tactics *)

Section Readback.

Context {F : Type} {FA : FloatArith F}.

Lemma node_of_skip (pre g : list (NodeDef F)) (o : Output) :
  node o < length g -> node_of (pre ++ g) o = node_of g o.
Proof.
  intros Hlt. induction pre as [|n pre IH]; simpl; [reflexivity|].
  rewrite IH, length_app.
  destruct (Nat.eqb_spec (node o) (length pre + length g)); [lia|reflexivity].
Qed.

Lemma node_of_nth (g : list (NodeDef F)) (len : nat) (o : Output) (d : nat)
  (nd : NodeDef F) :
  length g = len ->
  nth_error g d = Some nd ->
  S d + node o = len ->
  node_of g o = Some nd.
Proof.
  intros Hg Hnth Hlen.
  destruct (nth_error_split g d Hnth) as (pre & post & -> & Hd).
  rewrite length_app in Hg. simpl in Hg.
  rewrite node_of_skip by (simpl; lia).
  simpl. replace (node o) with (length post) by lia.
  rewrite Nat.eqb_refl. reflexivity.
Qed.

Lemma node_of_Some_lt (g : list (NodeDef F)) (o : Output) (nd : NodeDef F) :
  node_of g o = Some nd -> node o < length g.
Proof.
  induction g as [|n g IH]; simpl; [discriminate|].
  destruct (Nat.eqb_spec (node o) (length g)); [lia|].
  intros H. specialize (IH H). lia.
Qed.

Lemma node_of_fresh (g : list (NodeDef F)) (o : Output) :
  length g <= node o -> node_of g o = None.
Proof.
  intros Hle. destruct (node_of g o) eqn:E; [|reflexivity].
  apply node_of_Some_lt in E. lia.
Qed.

Lemma tm_at_old (base : nat) (g : list (NodeDef F)) (o : Output) :
  node o < base -> tm_at base g o = T_ref o.
Proof.
  intros Hlt. induction g as [|n g IH]; simpl; [reflexivity|].
  destruct (Nat.eqb (node o) (length g)); [|exact IH].
  apply Nat.ltb_lt in Hlt. rewrite Hlt. reflexivity.
Qed.

Lemma tm_at_skip (base : nat) (pre g : list (NodeDef F)) (o : Output) :
  node o < length g -> tm_at base (pre ++ g) o = tm_at base g o.
Proof.
  intros Hlt. induction pre as [|n pre IH]; simpl; [reflexivity|].
  rewrite IH. rewrite length_app.
  destruct (Nat.eqb_spec (node o) (length pre + length g)); [lia|reflexivity].
Qed.

Lemma map_tm_at_skip (base : nat) (pre g : list (NodeDef F)) (l : list Output) :
  Forall (fun i => node i < length g) l ->
  map (tm_at base (pre ++ g)) l = map (tm_at base g) l.
Proof.
  induction 1 as [|i l Hi _ IH]; simpl; [reflexivity|].
  rewrite IH, tm_at_skip by exact Hi. reflexivity.
Qed.

(** One step of reading back: the node of [o] lies [d] places below the
    most recent one. *)
Lemma tm_at_step (base : nat) (g : list (NodeDef F)) (o : Output)
  (d : nat) (nd : NodeDef F) :
  nth_error g d = Some nd ->
  node o + S d = length g ->
  Forall (fun i => node i < node o) (inputs nd) ->
  tm_at base g o =
    if Nat.ltb (node o) base || OpKind_eqb (op nd) Op_Variable
    then T_ref o
    else T_op (op nd) (attrs nd) (map (tm_at base g) (inputs nd)) (index o).
Proof.
  intros Hnth Hlen Hin.
  destruct (nth_error_split g d Hnth) as (pre & post & -> & Hd).
  rewrite length_app in Hlen. simpl in Hlen.
  assert (Hpost : node o = length post) by lia.
  change (pre ++ nd :: post) with (pre ++ (nd :: post)).
  rewrite tm_at_skip by (simpl; lia).
  rewrite (map_tm_at_skip base pre (nd :: post)).
  2:{ eapply Forall_impl; [|exact Hin]. simpl. intros; lia. }
  simpl. rewrite Hpost, Nat.eqb_refl.
  rewrite (map_tm_at_skip base [nd] post).
  2:{ eapply Forall_impl; [|exact Hin]. simpl. intros; lia. }
  reflexivity.
Qed.

Lemma tm_at_op (base : nat) (g : list (NodeDef F)) (len : nat) (o : Output)
  (d : nat) (nd : NodeDef F) :
  length g = len ->
  nth_error g d = Some nd ->
  S d + node o = len ->
  OpKind_eqb (op nd) Op_Variable = false ->
  Forall (fun i => node i < node o) (inputs nd) ->
  base <= node o ->
  tm_at base g o =
    T_op (op nd) (attrs nd) (map (tm_at base g) (inputs nd)) (index o).
Proof.
  intros Hg Hnth Hlen Hop Hin Hb.
  assert (Hlen' : node o + S d = length g) by lia.
  rewrite (@tm_at_step base g o d nd Hnth Hlen' Hin), Hop.
  destruct (Nat.ltb_spec (node o) base); [lia|reflexivity].
Qed.

Lemma tm_at_var (base : nat) (g : list (NodeDef F)) (len : nat) (o : Output)
  (d : nat) (nd : NodeDef F) :
  length g = len ->
  nth_error g d = Some nd ->
  S d + node o = len ->
  op nd = Op_Variable ->
  tm_at base g o = T_ref o.
Proof.
  intros Hg Hnth Hlen Hop.
  destruct (nth_error_split g d Hnth) as (pre & post & -> & Hd).
  rewrite length_app in Hg. simpl in Hg.
  rewrite tm_at_skip by (simpl; lia).
  simpl. replace (node o) with (length post) by lia.
  rewrite Nat.eqb_refl, Hop. simpl. rewrite orb_true_r. reflexivity.
Qed.

End Readback.

(** Numerals with an open tail: the identifier of the [j]-th node built
    after a scope [s] is [j] successors on [length (graph s)].  [succs]
    counts the successors and [core] gives the tail. *)
Ltac succs t :=
  lazymatch t with
  | S ?u => let k := succs u in constr:(S k)
  | _ => constr:(O)
  end.

Ltac core t :=
  lazymatch t with
  | S ?u => core u
  | _ => t
  end.

(** Proves [x <= y] for two such numerals on the same tail by computing
    their distance, and falls back on [lia]. *)
Ltac id_le :=
  cbn; unfold lt;
  lazymatch goal with
  | |- ?x <= ?y =>
      let cx := core x in
      let cy := core y in
      tryif constr_eq cx cy
      then (let j := succs x in
            let k := succs y in
            let m := eval compute in (k - j) in
            exact (Nat.le_add_l x m))
      else lia
  end.

Ltac ids_lt :=
  repeat first [apply Forall_nil | apply Forall_cons]; id_le.

(** Finds the node of an output of a graph given in full. *)
Ltac find_node :=
  lazymatch goal with
  | |- node_of ?g ?o = Some _ =>
      let len := eval cbn in (length g) in
      let id := eval cbn in (node o) in
      let k := succs len in
      let j := succs id in
      let d := eval compute in (k - 1 - j) in
      exact (@node_of_nth _ g len o d _ eq_refl eq_refl eq_refl)
  end.

(** Reads one node back: finds an occurrence of [tm_at] in the goal and
    replaces it by a leaf or by the operation of the node.  The graph is a
    local definition whose length is recorded in the context. *)
Ltac read_node :=
  match goal with
  | HG : length ?g = ?len |- context [tm_at ?b ?g ?o] =>
      let id := eval cbn in (node o) in
      let c1 := core id in
      let c2 := core len in
      tryif constr_eq c1 c2
      then
        (let k := succs len in
         let j := succs id in
         let d := eval compute in (k - 1 - j) in
         let gv := eval unfold g in g in
         let nd := eval cbn in (nth_error gv d) in
         lazymatch nd with
         | Some {| op := Op_Variable; inputs := _; attrs := _ |} =>
             rewrite (@tm_at_var _ b g len o d _ HG eq_refl eq_refl eq_refl)
         | _ =>
             rewrite (@tm_at_op _ b g len o d _ HG eq_refl eq_refl eq_refl)
               by (clear HG; clearbody g; first [ids_lt | id_le])
         end;
         cbn [map op attrs inputs index node])
      else
        rewrite (@tm_at_old _ b g o) by (clear HG; clearbody g; cbn; lia)
  end.

Ltac read_back :=
  unfold expression; cbn [graph];
  match goal with
  | |- context [tm_at _ ?g _] =>
      let G := fresh "G" in
      let HG := fresh "HG" in
      let len := eval cbn in (length g) in
      set (G := g);
      assert (HG : length G = len) by reflexivity;
      repeat read_node;
      clear HG; try clear G
  end.

(** ** Batch normalization *)

Section BatchNormalizationFacts.

Context {F : Type} {FA : FloatArith F}.

Lemma BatchNormalization_expression
  (x mean variance offset scale eps : Input F) (s : Scope F) :
  operand_in s x -> operand_in s mean -> operand_in s variance ->
  operand_in s offset -> operand_in s eps ->
  exists o s',
    BatchNormalization x mean variance offset scale eps s = Some (o, s') /\
    expression s s' o =
      BatchNormalization_tree (operand x) (operand mean) (operand variance)
        (operand offset) (operand eps).
Proof.
  intros Hx Hm Hv Ho He.
  destruct x, mean, variance, offset, eps; cbn in *;
    (eexists; eexists; split; [reflexivity|]); read_back; reflexivity.
Qed.

Lemma BatchNormalization_tree_value (rho : Output -> R) (u : R)
  (x mean variance offset eps : tm F) (vx vm vv vo ve : R) :
  denote rho u x = Some vx -> denote rho u mean = Some vm ->
  denote rho u variance = Some vv -> denote rho u offset = Some vo ->
  denote rho u eps = Some ve ->
  denote rho u (BatchNormalization_tree x mean variance offset eps) =
    Some (batch_normalization_reference vx vm vv vo None ve).
Proof.
  intros Hx Hm Hv Ho He. cbn. rewrite Hx, Hm, Hv, Ho, He. reflexivity.
Qed.

End BatchNormalizationFacts.

(** The values the binary32 constants of the example below stand for. *)
Lemma Binary32_val_0 : f_val (f_of_Z 0 : Binary32.float32) = 0%R.
Proof. reflexivity. Qed.

Lemma Binary32_val_1 : f_val (f_of_Z 1 : Binary32.float32) = 1%R.
Proof. cbn. lra. Qed.

Lemma Binary32_val_2 : f_val (f_of_Z 2 : Binary32.float32) = 2%R.
Proof. cbn. lra. Qed.

(** C1.  [BatchNormalization] takes [scale] and never uses it: on the
    operands x = 1, mean = 0, variance = 1, offset = 0, scale = 2 and
    variance_epsilon = 0 the graph it builds computes 1, where the formula of
    its comment gives 2. *)
Theorem BatchNormalization_ignores_scale :
  let c (n : Z) : Input Binary32.float32 := In_Tensor (list_f [f_of_Z n]) in
  exists o s',
    BatchNormalization (c 1%Z) (c 0%Z) (c 1%Z) (c 0%Z) (c 2%Z) (c 0%Z)
      NewRootScope = Some (o, s') /\
    (forall rho u,
       denote rho u (expression NewRootScope s' o) = Some 1%R) /\
    batch_normalization_reference 1 0 1 0 (Some 2%R) 0 = 2%R.
Proof.
  intros c.
  destruct (BatchNormalization_expression (c 1%Z) (c 0%Z) (c 1%Z)
              (c 0%Z) (c 2%Z) (c 0%Z) NewRootScope I I I I I)
    as (o & s' & Hrun & Hexp).
  exists o, s'. split; [exact Hrun|]. split.
  - intros rho u. rewrite Hexp.
    rewrite (@BatchNormalization_tree_value _ _ rho u _ _ _ _ _ 1 0 1 0 0)%R.
    + unfold batch_normalization_reference.
      replace (1 + 0)%R with 1%R by lra. rewrite sqrt_1. f_equal. lra.
    + cbn. f_equal. lra.
    + reflexivity.
    + cbn. f_equal. lra.
    + reflexivity.
    + reflexivity.
  - unfold batch_normalization_reference.
    replace (1 + 0)%R with 1%R by lra. rewrite sqrt_1. lra.
Qed.

(** ** Sigmoid cross entropy *)

Section SigmoidCrossEntropyFacts.

Context {F : Type} {FA : FloatArith F}.

Lemma SigmoidCrossEntropyWithLogits_expression
  (labels logits : Input F) (s : Scope F) :
  operand_in s labels -> operand_in s logits ->
  exists o s',
    SigmoidCrossEntropyWithLogits labels logits s = Some (o, s') /\
    expression s s' o =
      SigmoidCrossEntropyWithLogits_tree (operand labels) (operand logits).
Proof.
  intros Hz Hx.
  destruct labels, logits; cbn in *;
    (eexists; eexists; split; [reflexivity|]); read_back; reflexivity.
Qed.

Lemma SigmoidCrossEntropyWithLogits_tree_value (rho : Output -> R) (u : R)
  (labels logits : tm F) (x z : R) :
  denote rho u logits = Some x -> denote rho u labels = Some z ->
  denote rho u (SigmoidCrossEntropyWithLogits_tree labels logits) =
    Some (logistic_loss x z).
Proof.
  intros Hx Hz. cbn. rewrite Hx, Hz. cbn. unfold logistic_loss.
  destruct (Rle_dec 0 x) as [Hpos | Hneg].
  - rewrite Rmax_left by lra. rewrite Rabs_right by lra. reflexivity.
  - rewrite Rmax_right by lra. rewrite Rabs_left by lra.
    rewrite Ropp_involutive. reflexivity.
Qed.

End SigmoidCrossEntropyFacts.

(** C4.  For all labels [z] and logits [x], the output of
    [SigmoidCrossEntropyWithLogits] is the tree
    select(x >= 0, x, 0) - x * z + log1p(exp(select(x >= 0, -x, x))), and
    that tree computes max(x, 0) - x * z + log(1 + exp(-abs(x))) at every
    element. *)
Theorem SigmoidCrossEntropyWithLogits_stable_formula
  {F : Type} {FA : FloatArith F} (labels logits : Input F) (s : Scope F) :
  operand_in s labels -> operand_in s logits ->
  exists o s',
    SigmoidCrossEntropyWithLogits labels logits s = Some (o, s') /\
    expression s s' o =
      (let x := operand logits in
       let z := operand labels in
       t_Add (t_Sub (t_SelectV2 (t_GreaterEqual x (t_ZerosLike x))
                       x (t_ZerosLike x))
                    (t_Multiply x z))
             (t_Log1p (t_Exp (t_SelectV2 (t_GreaterEqual x (t_ZerosLike x))
                                (t_Negate x) x)))) /\
    forall rho u x z,
      denote rho u (operand logits) = Some x ->
      denote rho u (operand labels) = Some z ->
      denote rho u (expression s s' o) =
        Some (Rmax x 0 - x * z + ln (1 + exp (- Rabs x)))%R.
Proof.
  intros Hz Hx.
  destruct (SigmoidCrossEntropyWithLogits_expression labels logits s Hz Hx)
    as (o & s' & Hrun & Hexp).
  exists o, s'. split; [exact Hrun|]. split; [exact Hexp|].
  intros rho u x z Dx Dz. rewrite Hexp.
  exact (SigmoidCrossEntropyWithLogits_tree_value rho u _ _ Dx Dz).
Qed.

(** The theorem above on labels 1 and logits 2, given in the program text. *)
Lemma SigmoidCrossEntropyWithLogits_stable_formula_witness :
  let labels : Input Binary32.float32 := In_Tensor (list_f [f_of_Z 1]) in
  let logits : Input Binary32.float32 := In_Tensor (list_f [f_of_Z 2]) in
  exists o s',
    SigmoidCrossEntropyWithLogits labels logits NewRootScope = Some (o, s') /\
    forall rho u,
      denote rho u (expression NewRootScope s' o) =
        Some (Rmax 2 0 - 2 * 1 + ln (1 + exp (- Rabs 2)))%R.
Proof.
  intros labels logits.
  destruct (@SigmoidCrossEntropyWithLogits_stable_formula _ _ labels logits
              NewRootScope I I) as (o & s' & Hrun & _ & Hval).
  exists o, s'. split; [exact Hrun|].
  intros rho u. apply Hval.
  - cbn. f_equal. lra.
  - cbn. f_equal. lra.
Defined.

(** ** Dropout *)

Section DropoutFacts.

Context {F : Type} {FA : FloatArith F}.

Lemma Dropout_expression (x : Input F) (rate : Z) (s : Scope F) :
  operand_in s x ->
  exists o s',
    Dropout x rate s = Some (o, s') /\
    expression s s' o = Dropout_tree (f_of_Z (1 - rate)) (operand x).
Proof.
  intros Hx.
  destruct x; cbn in *;
    (eexists; eexists; split; [reflexivity|]); read_back; reflexivity.
Qed.

Lemma Dropout_tree_value (rho : Output -> R) (u : R) (keep : F)
  (x : tm F) (vx : R) :
  denote rho u x = Some vx ->
  denote rho u (Dropout_tree keep x) =
    Some (vx / f_val keep * IZR (Zfloor (u + f_val keep)))%R.
Proof.
  intros Hx. cbn. rewrite Hx. reflexivity.
Qed.

End DropoutFacts.

(** The conversion of the argument [0.3f] to the parameter [const int rate]
    gives 0, and the keep probability the nodes receive is 1. *)
Lemma Dropout_rate_of_literal :
  f_to_Z (f_lit 3 10 : Binary32.float32) = 0%Z /\
  f_val (f_of_Z (1 - f_to_Z (f_lit 3 10 : Binary32.float32))
           : Binary32.float32) = 1%R.
Proof.
  split; [reflexivity|]. cbn. lra.
Qed.

(** With that keep probability nothing is dropped and nothing is scaled. *)
Lemma Dropout_of_literal_is_identity (rho : Output -> R) (u : R)
  (x : tm Binary32.float32) (vx : R) :
  (0 <= u < 1)%R ->
  denote rho u x = Some vx ->
  denote rho u
    (Dropout_tree (f_of_Z (1 - f_to_Z (f_lit 3 10 : Binary32.float32))) x)
    = Some vx.
Proof.
  intros Hu Hx. rewrite (Dropout_tree_value rho u _ x Hx).
  destruct Dropout_rate_of_literal as [_ ->].
  rewrite (Zfloor_eq 1 (u + 1)) by lra.
  f_equal. field.
Qed.

(** C2.  The Discriminator calls [Dropout(scope, relu, 0.3f)], and the
    parameter [rate] is an [int]: on an element 1 and a uniform sample 0.1
    the node computes 1, where dropout at rate 0.3 drops the element. *)
Theorem Dropout_rate_truncated :
  let x : Input Binary32.float32 := In_Tensor (list_f [f_of_Z 1]) in
  exists o s',
    Dropout x (f_to_Z (f_lit 3 10 : Binary32.float32)) NewRootScope
      = Some (o, s') /\
    expression NewRootScope s' o = Dropout_tree (f_of_Z 1) (operand x) /\
    (forall rho,
       denote rho (1 / 10)%R (expression NewRootScope s' o) = Some 1%R) /\
    dropout_reference (3 / 10) 1 (1 / 10) = 0%R.
Proof.
  intros x.
  destruct (Dropout_expression x (f_to_Z (f_lit 3 10 : Binary32.float32))
              NewRootScope I) as (o & s' & Hrun & Hexp).
  exists o, s'. split; [exact Hrun|]. split; [exact Hexp|]. split.
  - intros rho. rewrite Hexp.
    apply Dropout_of_literal_is_identity; [lra|].
    cbn. f_equal. lra.
  - unfold dropout_reference.
    destruct (Rlt_dec (1 / 10) (3 / 10)); [reflexivity|lra].
Qed.

(** ** Transposed convolution *)

(** C8.  [Conv2DTranspose] is [Conv2DBackpropInput] on the same arguments
    in the same order, and on operands that are outputs it adds that one
    node to the graph and nothing else. *)
Theorem Conv2DTranspose_is_Conv2DBackpropInput
  {F : Type} (strides : list Z) (padding : Padding) (s : Scope F) :
  (forall input_sizes filter out_backprop : Input F,
     Conv2DTranspose input_sizes filter out_backprop strides padding s =
     Conv2DBackpropInput input_sizes filter out_backprop strides padding s) /\
  (forall input_sizes filter out_backprop : Output,
     Conv2DTranspose (In_Output input_sizes) (In_Output filter)
       (In_Output out_backprop) strides padding s =
     Some ({| node := length (graph s); index := 0 |},
           {| graph :=
                {| op := Op_Conv2DBackpropInput;
                   inputs := [input_sizes; filter; out_backprop];
                   attrs := [A_strides strides; A_padding padding] |}
                :: graph s |})).
Proof.
  split; intros; reflexivity.
Qed.

(** ** Glorot uniform initialization *)

Section GlorotFacts.

Context {F : Type} {FA : FloatArith F}.

Lemma GlorotUniform_run (shape : list Z) (s : Scope F) :
  GlorotUniform shape s =
    match fans_of shape with
    | Some (fan_in, fan_out) =>
        let limit := glorot_limit fan_in fan_out in
        Some ({| node := 5 + length (graph s); index := 0 |},
              {| graph :=
                   [ {| op := Op_Add;
                        inputs := [ {| node := 3 + length (graph s);
                                       index := 0 |};
                                    {| node := 4 + length (graph s);
                                       index := 0 |} ];
                        attrs := [] |};
                     {| op := Op_Const; inputs := [];
                        attrs := [A_value (scalar_f (f_neg limit));
                                  A_dtype DT_FLOAT] |};
                     {| op := Op_Multiply;
                        inputs := [ {| node := 1 + length (graph s);
                                       index := 0 |};
                                    {| node := 2 + length (graph s);
                                       index := 0 |} ];
                        attrs := [] |};
                     {| op := Op_Const; inputs := [];
                        attrs := [A_value
                                    (scalar_f (f_sub limit (f_neg limit)));
                                  A_dtype DT_FLOAT] |};
                     {| op := Op_RandomUniform;
                        inputs := [ {| node := length (graph s);
                                       index := 0 |} ];
                        attrs := [A_dtype DT_FLOAT] |};
                     {| op := Op_Const; inputs := [];
                        attrs := [A_value (list_i64 shape);
                                  A_dtype DT_INT64] |} ]
                   ++ graph s |})
    | None => None
    end.
Proof.
  destruct shape as [|a [|b [|c [|d [|e rest]]]]]; reflexivity.
Qed.

Lemma GlorotUniform_expression (shape : list Z) (s : Scope F)
  (fan_in fan_out : F) :
  fans_of shape = Some (fan_in, fan_out) ->
  exists o s',
    GlorotUniform shape s = Some (o, s') /\
    expression s s' o =
      GlorotUniform_tree shape (glorot_limit fan_in fan_out).
Proof.
  intros Hfans. rewrite GlorotUniform_run, Hfans. cbn zeta.
  eexists; eexists; split; [reflexivity|].
  cbn [app Nat.add]. read_back. reflexivity.
Qed.

Lemma GlorotUniform_defined (shape : list Z) (s : Scope F) :
  (exists r, GlorotUniform shape s = Some r) <-> 2 <= length shape.
Proof.
  rewrite GlorotUniform_run.
  destruct shape as [|a [|b [|c [|d [|e rest]]]]]; cbn;
    (split; [intros [r Hr]; first [discriminate Hr | lia]
            | intros Hlen; first [lia | eexists; reflexivity]]).
Qed.

End GlorotFacts.

(** The value of the tree over the real numbers: the sample [u] of [0, 1)
    is moved to [[-limit, limit]]. *)
Lemma GlorotUniform_tree_value (rho : Output -> R) (u : R)
  (shape : list Z) (limit : R) :
  denote rho u (GlorotUniform_tree shape limit) =
    Some (u * (limit - - limit) + - limit)%R.
Proof. reflexivity. Qed.

Lemma glorot_limit_real (fan_in fan_out : R) :
  glorot_limit fan_in fan_out =
    sqrt (3 * (1 / Rmax 1 ((fan_in + fan_out) / 2)))%R.
Proof. reflexivity. Qed.

Lemma rescaled_in_interval (u limit : R) :
  (0 <= limit)%R -> (0 <= u < 1)%R ->
  (- limit <= u * (limit - - limit) + - limit <= limit)%R.
Proof.
  intros Hl Hu. split; nra.
Qed.

(** In binary32 the limit of the kernel {5, 5, 128, 256} is 0.025, and the
    fans of the kernel {5, 5, 64, 128} are 1600 and 3200. *)
Example glorot_limit_5_5_128_256 :
  (let '(fan_in, fan_out) := fans_4D 5 5 128 256 in
   glorot_limit fan_in fan_out)
  = (S754_finite false 13421773 (-29) : Binary32.float32).
Proof. vm_compute. reflexivity. Qed.

Example glorot_fans_5_5_64_128 :
  fans_4D 5 5 64 128 =
    (f_of_Z 1600 : Binary32.float32, f_of_Z 3200 : Binary32.float32).
Proof. vm_compute. reflexivity. Qed.

(** C3.  For a shape [a, b] the fans are [a] and [b], for a shape
    [h, w, in, out] they are [h*w*in] and [h*w*out]; with
    [scale = 1 / max(1, (fan_in + fan_out) / 2)] and [limit = sqrt(3 * scale)]
    the output of [GlorotUniform] is the uniform sample times
    [limit - (-limit)] plus [-limit], which lies in [[-limit, limit]]. *)
Theorem GlorotUniform_formula :
  (forall (F : Type) (FA : FloatArith F) (s : Scope F) (a b : Z),
     exists o s',
       GlorotUniform [a; b] s = Some (o, s') /\
       expression s s' o =
         GlorotUniform_tree [a; b] (glorot_limit (f_of_Z a) (f_of_Z b))) /\
  (forall (F : Type) (FA : FloatArith F) (s : Scope F) (h w c_in c_out : Z),
     exists o s',
       GlorotUniform [h; w; c_in; c_out] s = Some (o, s') /\
       expression s s' o =
         GlorotUniform_tree [h; w; c_in; c_out]
           (glorot_limit (fst (fans_4D h w c_in c_out))
                         (snd (fans_4D h w c_in c_out)))) /\
  (forall h w c_in c_out : Z,
     fans_4D h w c_in c_out = (IZR (h * w * c_in), IZR (h * w * c_out))) /\
  (forall fan_in fan_out : R,
     glorot_limit fan_in fan_out =
       sqrt (3 * (1 / Rmax 1 ((fan_in + fan_out) / 2)))%R /\
     (0 <= glorot_limit fan_in fan_out)%R) /\
  (forall (rho : Output -> R) (u : R) (shape : list Z) (limit : R),
     (0 <= limit)%R -> (0 <= u < 1)%R ->
     exists v,
       denote rho u (GlorotUniform_tree shape limit) = Some v /\
       v = (u * (limit - - limit) + - limit)%R /\
       (- limit <= v <= limit)%R).
Proof.
  split; [|split; [|split; [|split]]].
  - intros F FA s a b.
    exact (GlorotUniform_expression [a; b] s eq_refl).
  - intros F FA s h w c_in c_out.
    apply GlorotUniform_expression. reflexivity.
  - intros h w c_in c_out. unfold fans_4D. cbn.
    rewrite !mult_IZR. f_equal; ring.
  - intros fan_in fan_out. split; [reflexivity|]. apply sqrt_pos.
  - intros rho u shape limit Hl Hu.
    exists (u * (limit - - limit) + - limit)%R.
    split; [reflexivity|]. split; [reflexivity|].
    apply rescaled_in_interval; assumption.
Qed.

(** The last part of the theorem above at limit 1 and sample 1/2. *)
Lemma GlorotUniform_formula_witness :
  exists v,
    denote (fun _ => 0%R) (1 / 2)%R (GlorotUniform_tree [2; 3]%Z 1%R)
      = Some v /\
    v = (1 / 2 * (1 - - 1) + - 1)%R /\ (- 1 <= v <= 1)%R.
Proof.
  destruct GlorotUniform_formula as (_ & _ & _ & _ & H).
  apply H; lra.
Defined.

(** C10.  [GlorotUniform] reads [shape_vec[0]] and [shape_vec[1]] before it
    looks at the size: the call is defined exactly for the shapes of two
    elements and more; the fans are those two elements for every size but
    4, and the receptive field times the third and the fourth element for
    size 4. *)
Theorem GlorotUniform_reads_first_two
  {F : Type} {FA : FloatArith F} (shape : list Z) (s : Scope F) :
  ((exists r, GlorotUniform shape s = Some r) <-> 2 <= length shape) /\
  (2 <= length shape -> length shape <> 4 ->
   exists o s',
     GlorotUniform shape s = Some (o, s') /\
     expression s s' o =
       GlorotUniform_tree shape
         (glorot_limit (f_of_Z (nth 0 shape 0%Z))
                       (f_of_Z (nth 1 shape 0%Z)))) /\
  (length shape = 4 ->
   exists o s',
     GlorotUniform shape s = Some (o, s') /\
     expression s s' o =
       GlorotUniform_tree shape
         (let receptive_field_size :=
            f_mul (f_mul (f_of_Z 1) (f_of_Z (nth 0 shape 0%Z)))
                  (f_of_Z (nth 1 shape 0%Z)) in
          glorot_limit
            (f_mul receptive_field_size (f_of_Z (nth 2 shape 0%Z)))
            (f_mul receptive_field_size (f_of_Z (nth 3 shape 0%Z))))).
Proof.
  split; [apply GlorotUniform_defined|]. split.
  - intros Hlen Hne.
    apply GlorotUniform_expression.
    destruct shape as [|a [|b [|c [|d [|e rest]]]]]; cbn in *;
      first [lia | reflexivity].
  - intros Hlen.
    apply GlorotUniform_expression.
    destruct shape as [|a [|b [|c [|d [|e rest]]]]]; cbn in *;
      first [discriminate Hlen | reflexivity].
Qed.

(** The theorem above on the shape {2, 3, 4}, which has three elements. *)
Lemma GlorotUniform_reads_first_two_witness :
  exists o s',
    GlorotUniform [2; 3; 4]%Z (NewRootScope (F := Binary32.float32))
      = Some (o, s') /\
    expression NewRootScope s' o =
      GlorotUniform_tree [2; 3; 4]%Z (glorot_limit (f_of_Z 2) (f_of_Z 3)).
Proof.
  destruct (GlorotUniform_reads_first_two [2; 3; 4]%Z
              (NewRootScope (F := Binary32.float32))) as (_ & H & _).
  apply H; cbn; lia.
Defined.

(** ** The Generator *)

Section GeneratorFacts.

Context {F : Type} {FA : FloatArith F}.

Variables NOISE_DIM UNITS NUM_CHANNELS : Z.

Local Open Scope Z_scope.

(** C6.  For every batch size the output of the Generator is the
    pipeline: random normal noise, one matrix multiplication with [w1],
    batch normalization, leaky ReLU, a reshape to [batch_size, 7, 7, 256],
    and three transposed convolutions, the first of stride 1 and the other
    two of stride 2, with fused batch normalization and leaky ReLU after the
    first and after the second; the construction adds three transposed
    convolutions, one matrix multiplication and one reshape to the graph. *)
Theorem Generator_pipeline (batch_size : Z) (s : Scope F) :
  exists gen s',
    Generator NOISE_DIM UNITS NUM_CHANNELS batch_size s = Some (gen, s') /\
    expression s s' (G.output gen) =
      Generator_tree NOISE_DIM NUM_CHANNELS batch_size
        (T_ref (G.w1 gen)) (T_ref (G.filter gen))
        (T_ref (G.filter2 gen)) (T_ref (G.filter3 gen)) /\
    (count_op Op_RandomNormal (graph s')
       = 2 + count_op Op_RandomNormal (graph s) /\
     count_op Op_MatMul (graph s') = 1 + count_op Op_MatMul (graph s) /\
     count_op Op_Reshape (graph s') = 1 + count_op Op_Reshape (graph s) /\
     count_op Op_Conv2DBackpropInput (graph s')
       = 3 + count_op Op_Conv2DBackpropInput (graph s) /\
     count_op Op_FusedBatchNorm (graph s')
       = 2 + count_op Op_FusedBatchNorm (graph s) /\
     count_op Op_LeakyRelu (graph s')
       = 3 + count_op Op_LeakyRelu (graph s))%nat.
Proof.
  cbn. unfold ret. eexists; eexists; split; [reflexivity|].
  split; [|repeat split; reflexivity].
  cbn [G.output G.w1 G.filter G.filter2 G.filter3].
  read_back. reflexivity.
Qed.

End GeneratorFacts.

(** ** The Discriminator *)

Section DiscriminatorFacts.

Context {F : Type} {FA : FloatArith F}.

Variables NUM_CHANNELS IMAGE_SIZE : Z.

Local Open Scope Z_scope.

(** C7.  For every input and batch size the output of the Discriminator is
    two stages of convolution (stride 2, padding SAME), bias, leaky ReLU
    of slope 0.3 and dropout, then the reshape to [batch_size, s1] with
    [s1 = (IMAGE_SIZE / 4)^2 * 128] and the matrix multiplication with
    [fc1_weights], of shape [s1, 1], plus the bias [fc1_biases], of shape
    [1]; the construction adds two convolutions, one reshape and one matrix
    multiplication to the graph. *)
Theorem Discriminator_layers (inputs' : Input F) (batch_size : Z)
  (s : Scope F) :
  operand_in s inputs' ->
  exists d s',
    Discriminator NUM_CHANNELS IMAGE_SIZE inputs' batch_size s
      = Some (d, s') /\
    expression s s' (D.output d) =
      Discriminator_forward IMAGE_SIZE d (operand inputs') batch_size /\
    node_of (graph s') (D.fc1_weights d)
      = Some (Variable_node [(Z.quot IMAGE_SIZE 4) ^ 2 * 128; 1]) /\
    node_of (graph s') (D.fc1_biases d) = Some (Variable_node [1]) /\
    (count_op Op_Conv2D (graph s') = 2 + count_op Op_Conv2D (graph s) /\
     count_op Op_Reshape (graph s') = 1 + count_op Op_Reshape (graph s) /\
     count_op Op_MatMul (graph s') = 1 + count_op Op_MatMul (graph s) /\
     count_op Op_LeakyRelu (graph s') = 2 + count_op Op_LeakyRelu (graph s) /\
     count_op Op_Floor (graph s') = 2 + count_op Op_Floor (graph s))%nat.
Proof.
  intros Hin.
  destruct inputs' as [x | t]; cbn in Hin |- *; unfold ret;
    (eexists; eexists; split; [reflexivity|]);
    (split; [|split; [|split; [|repeat split; reflexivity]]]);
    cbn [D.output D.conv1_weights D.conv1_biases D.conv2_weights
         D.conv2_biases D.fc1_weights D.fc1_biases graph].
  - read_back. reflexivity.
  - find_node.
  - find_node.
  - read_back. reflexivity.
  - find_node.
  - find_node.
Qed.

(** C9.  The constructor that takes an existing Discriminator builds, over
    the weights of that Discriminator, the same layers as the primary
    constructor: the same sequence, strides, padding and flattened size, so
    that on the same input and batch size the two outputs are the same
    expression of the input and the six shared variables. *)
Theorem Discriminator_shared_same_forward
  (inputs1 inputs2 : Input F) (batch_size1 batch_size2 : Z) (s : Scope F) :
  operand_in s inputs1 -> operand_in s inputs2 ->
  exists d s1 o2 s2,
    Discriminator NUM_CHANNELS IMAGE_SIZE inputs1 batch_size1 s
      = Some (d, s1) /\
    Discriminator_shared IMAGE_SIZE d inputs2 batch_size2 s1
      = Some (o2, s2) /\
    expression s s1 (D.output d) =
      Discriminator_forward IMAGE_SIZE d (operand inputs1) batch_size1 /\
    expression s s2 o2 =
      Discriminator_forward IMAGE_SIZE d (operand inputs2) batch_size2 /\
    (inputs2 = inputs1 -> batch_size2 = batch_size1 ->
     expression s s2 o2 = expression s s1 (D.output d)).
Proof.
  intros Hin1 Hin2.
  assert (Hmain : exists d s1 o2 s2,
    Discriminator NUM_CHANNELS IMAGE_SIZE inputs1 batch_size1 s
      = Some (d, s1) /\
    Discriminator_shared IMAGE_SIZE d inputs2 batch_size2 s1
      = Some (o2, s2) /\
    expression s s1 (D.output d) =
      Discriminator_forward IMAGE_SIZE d (operand inputs1) batch_size1 /\
    expression s s2 o2 =
      Discriminator_forward IMAGE_SIZE d (operand inputs2) batch_size2).
  { destruct inputs1 as [x1 | t1], inputs2 as [x2 | t2];
      cbn in Hin1, Hin2 |- *; unfold ret;
      (eexists; eexists; eexists; eexists;
       split; [reflexivity|]; split; [cbn; reflexivity|]);
      cbn [D.output D.conv1_weights D.conv1_biases D.conv2_weights
           D.conv2_biases D.fc1_weights D.fc1_biases graph];
      (split; read_back; reflexivity). }
  destruct Hmain as (d & s1 & o2 & s2 & H1 & H2 & E1 & E2).
  exists d, s1, o2, s2. repeat split; try assumption.
  intros -> ->. rewrite E1, E2. reflexivity.
Qed.

End DiscriminatorFacts.

(** ** Who writes to a variable *)

Section Writers.

Context {F : Type} {FA : FloatArith F}.

Lemma targets_app (a g : list (NodeDef F)) :
  targets (a ++ g) = targets a ++ targets g.
Proof. unfold targets. apply flat_map_app. Qed.

Lemma writers_app (a g : list (NodeDef F)) (v : Output) :
  writers (a ++ g) v = writers a v ++ writers g v.
Proof. unfold writers. apply filter_app. Qed.

Lemma writers_nil_iff (g : list (NodeDef F)) (v : Output) :
  writers g v = [] <-> ~ In (node v) (targets g).
Proof.
  induction g as [|n g IH]; simpl; [tauto|].
  unfold writes_to. destruct (assign_target n) as [t|]; simpl.
  - destruct (Nat.eqb_spec t (node v)) as [-> | Hne].
    + split; [discriminate | intros H; exfalso; apply H; left; reflexivity].
    + rewrite IH. split; [intros H [E | I]; [congruence | tauto] | tauto].
  - exact IH.
Qed.

Lemma writers_fresh (g : list (NodeDef F)) (v : Output) :
  Forall (fun t => t < length g) (targets g) ->
  length g <= node v ->
  writers g v = [].
Proof.
  intros Hall Hle. apply writers_nil_iff. intros Hin.
  rewrite Forall_forall in Hall. specialize (Hall _ Hin). lia.
Qed.

Lemma unique_writer (g : list (NodeDef F)) (v : Output) (n : NodeDef F) :
  NoDup (targets g) ->
  In n g ->
  assign_target n = Some (node v) ->
  writers g v = [n].
Proof.
  intros Hnd Hin Ht.
  destruct (in_split _ _ Hin) as (pre & post & ->).
  rewrite targets_app in Hnd. simpl in Hnd. rewrite Ht in Hnd. simpl in Hnd.
  rewrite writers_app.
  assert (Hn : writers (n :: post) v = n :: writers post v).
  { unfold writers. simpl. unfold writes_to at 1.
    rewrite Ht, Nat.eqb_refl. reflexivity. }
  assert (Hpre : writers pre v = []).
  { apply writers_nil_iff. intros I.
    apply NoDup_remove_2 in Hnd. apply Hnd, in_or_app. left. exact I. }
  assert (Hpost : writers post v = []).
  { apply writers_nil_iff. intros I.
    apply NoDup_remove_2 in Hnd. apply Hnd, in_or_app. right. exact I. }
  rewrite Hn, Hpre, Hpost. reflexivity.
Qed.

Lemma single_writers_extend (g added : list (NodeDef F)) :
  single_writers g ->
  fresh_writers (length g) added ->
  single_writers (added ++ g).
Proof.
  intros [Hnd Hlt] [Hnd' Hrange]. split.
  - rewrite targets_app. apply NoDup_app; [exact Hnd' | exact Hnd |].
    intros t Ha Hg. rewrite Forall_forall in Hlt, Hrange.
    specialize (Hlt _ Hg). specialize (Hrange _ Ha). lia.
  - rewrite targets_app, length_app. apply Forall_app. split.
    + eapply Forall_impl; [|exact Hrange]. simpl. intros; lia.
    + eapply Forall_impl; [|exact Hlt]. simpl. intros; lia.
Qed.

Lemma fresh_writers_app (base : nat) (a1 a2 : list (NodeDef F)) :
  fresh_writers base a1 ->
  fresh_writers (length a1 + base) a2 ->
  fresh_writers base (a2 ++ a1).
Proof.
  intros [Hnd1 Hr1] [Hnd2 Hr2]. split.
  - rewrite targets_app. apply NoDup_app; [exact Hnd2 | exact Hnd1 |].
    intros t H2 H1. rewrite Forall_forall in Hr1, Hr2.
    specialize (Hr1 _ H1). specialize (Hr2 _ H2). lia.
  - rewrite targets_app, length_app. apply Forall_app. split.
    + eapply Forall_impl; [|exact Hr2]. simpl. intros; lia.
    + eapply Forall_impl; [|exact Hr1]. simpl. intros; lia.
Qed.

Lemma fresh_writers_nil (base : nat) :
  fresh_writers base (@nil (NodeDef F)).
Proof. split; constructor. Qed.

(** Later constructions that keep to new variables leave a zero-initialised
    accumulator as it is. *)
Lemma zero_initialised_extend (g added : list (NodeDef F))
  (acc param : Output) :
  fresh_writers (length g) added ->
  zero_initialised g acc param ->
  zero_initialised (added ++ g) acc param.
Proof.
  intros [_ Hrange] (z & shape & Hw & Hz & Ha & Hp).
  exists z, shape.
  pose proof (node_of_Some_lt _ _ Hz) as Lz.
  pose proof (node_of_Some_lt _ _ Ha) as La.
  pose proof (node_of_Some_lt _ _ Hp) as Lp.
  rewrite writers_app, !node_of_skip by assumption.
  repeat split; try assumption.
  replace (writers added acc) with (@nil (NodeDef F)); [exact Hw|].
  symmetry. apply writers_nil_iff. intros Hin.
  rewrite Forall_forall in Hrange. specialize (Hrange _ Hin). lia.
Qed.

End Writers.

(** Splits a graph given node by node into the nodes added and the graph
    they were added to. *)
Lemma cons_app_eq {A} (n : A) (l a g : list A) :
  l = a ++ g -> n :: l = (n :: a) ++ g.
Proof. intros ->. reflexivity. Qed.

Lemma nil_app_eq {A} (g : list A) : g = [] ++ g.
Proof. reflexivity. Qed.

Ltac split_added := repeat apply cons_app_eq; apply nil_app_eq.

(** *** Constructions that write to no variable *)

Section NoWriter.

Context {F : Type} {FA : FloatArith F}.

Lemma adds_no_writer_ret {A} (a : A) : adds_no_writer (ret (F := F) a).
Proof.
  intros s a' s' H. injection H as <- <-. exists []. split; reflexivity.
Qed.

Lemma adds_no_writer_undefined {A} : adds_no_writer (@undefined F A).
Proof. intros s a s' H. discriminate H. Qed.

Lemma adds_no_writer_bind {A B} (c : Build F A) (k : A -> Build F B) :
  adds_no_writer c ->
  (forall a, adds_no_writer (k a)) ->
  adds_no_writer (bind c k).
Proof.
  intros Hc Hk s b s' H. unfold bind in H.
  destruct (c s) as [[a s1]|] eqn:E; [|discriminate H].
  destruct (Hc _ _ _ E) as (a1 & G1 & T1).
  destruct (Hk _ _ _ _ H) as (a2 & G2 & T2).
  exists (a2 ++ a1). split.
  - rewrite G2, G1, app_assoc. reflexivity.
  - rewrite targets_app, T1, T2. reflexivity.
Qed.

Lemma adds_no_writer_add_node (k : OpKind) (ins : list Output)
  (ats : list (Attr F)) :
  OpKind_eqb k Op_Assign = false ->
  adds_no_writer (add_node k ins ats).
Proof.
  intros Hk s a s' H. injection H as <- <-.
  exists [ {| op := k; inputs := ins; attrs := ats |} ].
  split; [reflexivity|].
  destruct k; try discriminate Hk; reflexivity.
Qed.

Lemma adds_no_writer_AsNodeOut (i : Input F) : adds_no_writer (AsNodeOut i).
Proof.
  destruct i; [apply adds_no_writer_ret|].
  apply adds_no_writer_add_node. reflexivity.
Qed.

Lemma adds_no_writer_vec_at (v : list Z) (i : nat) :
  adds_no_writer (vec_at (F := F) v i).
Proof.
  unfold vec_at. destruct (nth_error v i);
    [apply adds_no_writer_ret | apply adds_no_writer_undefined].
Qed.

Lemma adds_no_writer_unary_op (k : OpKind) (ats : list (Attr F))
  (x : Input F) :
  OpKind_eqb k Op_Assign = false -> adds_no_writer (unary_op k ats x).
Proof.
  intros Hk. unfold unary_op.
  apply adds_no_writer_bind; [apply adds_no_writer_AsNodeOut|]. intros x'.
  apply adds_no_writer_add_node, Hk.
Qed.

Lemma adds_no_writer_binary_op (k : OpKind) (ats : list (Attr F))
  (x y : Input F) :
  OpKind_eqb k Op_Assign = false -> adds_no_writer (binary_op k ats x y).
Proof.
  intros Hk. unfold binary_op.
  apply adds_no_writer_bind; [apply adds_no_writer_AsNodeOut|]. intros x'.
  apply adds_no_writer_bind; [apply adds_no_writer_AsNodeOut|]. intros y'.
  apply adds_no_writer_add_node, Hk.
Qed.

Lemma adds_no_writer_ternary_op (k : OpKind) (ats : list (Attr F))
  (x y z : Input F) :
  OpKind_eqb k Op_Assign = false -> adds_no_writer (ternary_op k ats x y z).
Proof.
  intros Hk. unfold ternary_op.
  apply adds_no_writer_bind; [apply adds_no_writer_AsNodeOut|]. intros x'.
  apply adds_no_writer_bind; [apply adds_no_writer_AsNodeOut|]. intros y'.
  apply adds_no_writer_bind; [apply adds_no_writer_AsNodeOut|]. intros z'.
  apply adds_no_writer_add_node, Hk.
Qed.

End NoWriter.

Create HintDb no_writer.

#[export] Hint Resolve adds_no_writer_ret adds_no_writer_bind
  adds_no_writer_add_node adds_no_writer_AsNodeOut adds_no_writer_vec_at
  adds_no_writer_unary_op adds_no_writer_binary_op
  adds_no_writer_ternary_op : no_writer.

#[export] Hint Unfold Add Sub Multiply Div Negate Rsqrt Exp Log1p Floor
  ZerosLike Shape GreaterEqual SelectV2 MatMul BiasAdd Reshape BroadcastTo
  Cast RandomUniform RandomNormal LeakyRelu Conv2D Conv2DBackpropInput
  Const : no_writer.

#[export] Hint Extern 1 (OpKind_eqb _ _ = false) => reflexivity : no_writer.

Ltac no_writer :=
  repeat first
    [ apply adds_no_writer_bind; [|intros ?]
    | progress autounfold with no_writer
    | solve [auto with no_writer] ].

Section HelpersWriteNothing.

Context {F : Type} {FA : FloatArith F}.

Lemma BatchNormalization_adds_no_writer
  (x mean variance offset scale eps : Input F) :
  adds_no_writer (BatchNormalization x mean variance offset scale eps).
Proof. unfold BatchNormalization. no_writer. Qed.

Lemma Dropout_adds_no_writer (x : Input F) (rate : Z) :
  adds_no_writer (Dropout x rate).
Proof. unfold Dropout. cbn zeta. no_writer. Qed.

Lemma SigmoidCrossEntropyWithLogits_adds_no_writer (labels logits : Input F) :
  adds_no_writer (SigmoidCrossEntropyWithLogits labels logits).
Proof. unfold SigmoidCrossEntropyWithLogits. no_writer. Qed.

Lemma GlorotUniform_adds_no_writer (shape : list Z) :
  adds_no_writer (GlorotUniform shape).
Proof.
  intros s a s' H. rewrite GlorotUniform_run in H.
  destruct (fans_of shape) as [[fan_in fan_out]|]; [|discriminate H].
  cbn zeta in H. injection H as <- <-.
  eexists. split; [cbn; split_added|]. reflexivity.
Qed.

Lemma Conv2DTranspose_adds_no_writer
  (input_sizes filter out_backprop : Input F) (strides : list Z)
  (padding : Padding) :
  adds_no_writer
    (Conv2DTranspose input_sizes filter out_backprop strides padding).
Proof. unfold Conv2DTranspose. no_writer. Qed.

Lemma Discriminator_shared_adds_no_writer (IMAGE_SIZE : Z) (disc : D.members)
  (inputs' : Input F) (batch_size : Z) :
  adds_no_writer (Discriminator_shared IMAGE_SIZE disc inputs' batch_size).
Proof.
  unfold Discriminator_shared. cbn zeta.
  pose proof Dropout_adds_no_writer.
  no_writer.
Qed.

End HelpersWriteNothing.

(** *** Constructions that return *)

Section Returns.

Context {F : Type} {FA : FloatArith F}.

Lemma always_returns_ret {A} (a : A) : always_returns (ret (F := F) a).
Proof. intros s. exists a, s. reflexivity. Qed.

Lemma always_returns_bind {A B} (c : Build F A) (k : A -> Build F B) :
  always_returns c ->
  (forall a, always_returns (k a)) ->
  always_returns (bind c k).
Proof.
  intros Hc Hk s. destruct (Hc s) as (a & s1 & E).
  destruct (Hk a s1) as (b & s2 & E2).
  exists b, s2. unfold bind. rewrite E. exact E2.
Qed.

Lemma always_returns_add_node (k : OpKind) (ins : list Output)
  (ats : list (Attr F)) :
  always_returns (add_node k ins ats).
Proof. intros s. eexists; eexists; reflexivity. Qed.

Lemma always_returns_AsNodeOut (i : Input F) : always_returns (AsNodeOut i).
Proof.
  destruct i; [apply always_returns_ret | apply always_returns_add_node].
Qed.

Lemma always_returns_unary_op (k : OpKind) (ats : list (Attr F))
  (x : Input F) :
  always_returns (unary_op k ats x).
Proof.
  unfold unary_op.
  apply always_returns_bind; [apply always_returns_AsNodeOut|]. intros x'.
  apply always_returns_add_node.
Qed.

Lemma always_returns_binary_op (k : OpKind) (ats : list (Attr F))
  (x y : Input F) :
  always_returns (binary_op k ats x y).
Proof.
  unfold binary_op.
  apply always_returns_bind; [apply always_returns_AsNodeOut|]. intros x'.
  apply always_returns_bind; [apply always_returns_AsNodeOut|]. intros y'.
  apply always_returns_add_node.
Qed.

Lemma always_returns_ternary_op (k : OpKind) (ats : list (Attr F))
  (x y z : Input F) :
  always_returns (ternary_op k ats x y z).
Proof.
  unfold ternary_op.
  apply always_returns_bind; [apply always_returns_AsNodeOut|]. intros x'.
  apply always_returns_bind; [apply always_returns_AsNodeOut|]. intros y'.
  apply always_returns_bind; [apply always_returns_AsNodeOut|]. intros z'.
  apply always_returns_add_node.
Qed.

End Returns.

Create HintDb returns.

#[export] Hint Resolve always_returns_ret always_returns_bind
  always_returns_add_node always_returns_AsNodeOut always_returns_unary_op
  always_returns_binary_op always_returns_ternary_op : returns.

Ltac returns :=
  repeat first
    [ apply always_returns_bind; [|intros ?]
    | progress autounfold with no_writer
    | solve [auto with returns] ].

Section HelpersReturn.

Context {F : Type} {FA : FloatArith F}.

Lemma BatchNormalization_returns
  (x mean variance offset scale eps : Input F) :
  always_returns (BatchNormalization x mean variance offset scale eps).
Proof. unfold BatchNormalization. returns. Qed.

Lemma Dropout_returns (x : Input F) (rate : Z) :
  always_returns (Dropout x rate).
Proof. unfold Dropout. cbn zeta. returns. Qed.

Lemma SigmoidCrossEntropyWithLogits_returns (labels logits : Input F) :
  always_returns (SigmoidCrossEntropyWithLogits labels logits).
Proof. unfold SigmoidCrossEntropyWithLogits. returns. Qed.

Lemma GlorotUniform_returns (shape : list Z) :
  2 <= length shape -> always_returns (GlorotUniform shape).
Proof.
  intros Hlen s.
  destruct (proj2 (GlorotUniform_defined shape s) Hlen) as [[o s'] E].
  exists o, s'. exact E.
Qed.

Lemma Conv2DTranspose_returns
  (input_sizes filter out_backprop : Input F) (strides : list Z)
  (padding : Padding) :
  always_returns
    (Conv2DTranspose input_sizes filter out_backprop strides padding).
Proof. unfold Conv2DTranspose. returns. Qed.

Lemma Discriminator_shared_returns (IMAGE_SIZE : Z) (disc : D.members)
  (inputs' : Input F) (batch_size : Z) :
  always_returns (Discriminator_shared IMAGE_SIZE disc inputs' batch_size).
Proof.
  unfold Discriminator_shared. cbn zeta.
  pose proof Dropout_returns.
  returns.
Qed.

End HelpersReturn.

(** *** The accumulators of the two networks *)

(** Looks in a graph given node by node for the [Assign] whose first
    operand is [a], and returns its position and its second operand. *)
Ltac find_assign g a k :=
  lazymatch g with
  | {| op := Op_Assign; inputs := [a; ?z]; attrs := _ |} :: _ =>
      constr:((k, z))
  | _ :: ?rest => find_assign rest a constr:(S k)
  end.

Ltac fresh_writers_of_graph :=
  split;
  [ cbn;
    repeat (apply NoDup_cons; [cbn [In]; lia|]); apply NoDup_nil
  | cbn;
    repeat (apply Forall_cons; [lia|]); apply Forall_nil ].

Ltac initialised_in_graph :=
  repeat (apply Forall_cons;
          [ lazymatch goal with
            | |- initialised_by ?added _ (?a, _) =>
                let r := find_assign added a constr:(O) in
                lazymatch r with
                | (?k, ?z) =>
                    exists z; eexists; cbn [fst snd];
                    split; [exact (nth_error_In added k eq_refl)|];
                    split; [find_node | split; find_node]
                end
            end
          | ]);
  apply Forall_nil.

Section NetworksWrite.

Context {F : Type} {FA : FloatArith F}.

Variables NOISE_DIM UNITS NUM_CHANNELS IMAGE_SIZE : Z.

Lemma Generator_writes (batch_size : Z) (s : Scope F) :
  exists gen s' added,
    Generator NOISE_DIM UNITS NUM_CHANNELS batch_size s = Some (gen, s') /\
    graph s' = added ++ graph s /\
    fresh_writers (length (graph s)) added /\
    Forall (initialised_by added (graph s')) (G_accumulators gen).
Proof.
  cbn. unfold ret. eexists; eexists; eexists. split; [reflexivity|].
  cbn [graph]. split; [split_added|]. split.
  - fresh_writers_of_graph.
  - unfold G_accumulators.
    cbn [G.w1 G.w1_wm G.w1_wv G.filter G.filter_wm G.filter_wv G.filter2
         G.filter2_wm G.filter2_wv G.filter3 G.filter3_wm G.filter3_wv].
    initialised_in_graph.
Qed.

Lemma Discriminator_writes (inputs' : Input F) (batch_size : Z)
  (s : Scope F) :
  exists d s' added,
    Discriminator NUM_CHANNELS IMAGE_SIZE inputs' batch_size s
      = Some (d, s') /\
    graph s' = added ++ graph s /\
    fresh_writers (length (graph s)) added /\
    Forall (initialised_by added (graph s')) (D_accumulators d).
Proof.
  destruct inputs' as [x | t]; cbn; unfold ret;
    (eexists; eexists; eexists; split; [reflexivity|]);
    cbn [graph]; (split; [split_added|]); (split;
    [ fresh_writers_of_graph
    | unfold D_accumulators;
      cbn [D.conv1_weights D.conv1_biases D.conv2_weights D.conv2_biases
           D.fc1_weights D.fc1_biases D.conv1_wm D.conv1_wv D.conv1_bm
           D.conv1_bv D.conv2_wm D.conv2_wv D.conv2_bm D.conv2_bv D.fc1_wm
           D.fc1_wv D.fc1_bm D.fc1_bv];
      initialised_in_graph ]).
Qed.

End NetworksWrite.

(** *** Programs over the constructions of this file *)

Section Programs.

Context {F : Type} {FA : FloatArith F}.

Variables NOISE_DIM UNITS NUM_CHANNELS IMAGE_SIZE : Z.

Local Open Scope build_scope.

Lemma fresh_writers_of_no_targets (base : nat) (added : list (NodeDef F)) :
  targets added = [] -> fresh_writers base added.
Proof. intros H. unfold fresh_writers. rewrite H. split; constructor. Qed.

Lemma initialised_by_zero_initialised (g added : list (NodeDef F))
  (ap : Output * Output) :
  single_writers (added ++ g) ->
  initialised_by added (added ++ g) ap ->
  zero_initialised_in (added ++ g) ap.
Proof.
  intros [Hnd _] (z & shape & Hin & Hz & Ha & Hp).
  exists z, shape. repeat split; try assumption.
  apply unique_writer; [exact Hnd | | reflexivity].
  apply in_or_app. left. exact Hin.
Qed.

Lemma no_writer_step {A} (c : Build F A) (s : Scope F)
  (accs : list (Output * Output)) (s' : Scope F) :
  adds_no_writer c ->
  bind c (fun _ => ret []) s = Some (accs, s') ->
  exists added,
    graph s' = added ++ graph s /\
    fresh_writers (length (graph s)) added /\
    Forall (zero_initialised_in (graph s')) accs.
Proof.
  intros Hc H. unfold bind in H.
  destruct (c s) as [[r s1]|] eqn:E; [|discriminate H].
  injection H as <- <-.
  destruct (Hc _ _ _ E) as (added & Hg & Ht).
  exists added. split; [exact Hg|]. split; [|constructor].
  apply fresh_writers_of_no_targets, Ht.
Qed.

Lemma bind_ret_inv {A B} (c : Build F A) (f : A -> B) (s : Scope F)
  (b : B) (s' : Scope F) :
  bind c (fun a => ret (f a)) s = Some (b, s') ->
  exists a, c s = Some (a, s') /\ b = f a.
Proof.
  unfold bind, ret. destruct (c s) as [[a s1]|]; [|discriminate].
  intros H. injection H as <- <-. exists a. split; reflexivity.
Qed.

(** The equations of [run_call] on the two networks. *)
Lemma run_call_Generator (batch_size : Z) :
  run_call NOISE_DIM UNITS NUM_CHANNELS IMAGE_SIZE
    (Call_Generator batch_size) =
    bind (Generator NOISE_DIM UNITS NUM_CHANNELS batch_size)
         (fun gen => ret (G_accumulators gen)).
Proof. reflexivity. Qed.

Lemma run_call_Discriminator (inputs' : Input F) (batch_size : Z) :
  run_call NOISE_DIM UNITS NUM_CHANNELS IMAGE_SIZE
    (Call_Discriminator inputs' batch_size) =
    bind (Discriminator NUM_CHANNELS IMAGE_SIZE inputs' batch_size)
         (fun d => ret (D_accumulators d)).
Proof. reflexivity. Qed.

(** A call that is not a network declares no accumulator and runs one of
    the constructions that write nothing. *)
Lemma run_call_helper (c : call) :
  match c with
  | Call_Generator _ | Call_Discriminator _ _ => True
  | _ => exists (A : Type) (b : Build F A),
           adds_no_writer b /\
           (call_defined c -> always_returns b) /\
           run_call NOISE_DIM UNITS NUM_CHANNELS IMAGE_SIZE c
             = bind b (fun _ => ret [])
  end.
Proof.
  destruct c; try exact I; eexists; eexists;
    (split; [|split; [intros Hdef|reflexivity]]).
  - apply BatchNormalization_adds_no_writer.
  - apply BatchNormalization_returns.
  - apply Dropout_adds_no_writer.
  - apply Dropout_returns.
  - apply SigmoidCrossEntropyWithLogits_adds_no_writer.
  - apply SigmoidCrossEntropyWithLogits_returns.
  - apply GlorotUniform_adds_no_writer.
  - apply GlorotUniform_returns, Hdef.
  - apply Conv2DTranspose_adds_no_writer.
  - apply Conv2DTranspose_returns.
  - apply Discriminator_shared_adds_no_writer.
  - apply Discriminator_shared_returns.
Qed.

Lemma network_step {A} (b : Build F A)
  (accumulators : A -> list (Output * Output))
  (s : Scope F) (accs : list (Output * Output)) (s' : Scope F) :
  single_writers (graph s) ->
  (exists a s1 added,
     b s = Some (a, s1) /\
     graph s1 = added ++ graph s /\
     fresh_writers (length (graph s)) added /\
     Forall (initialised_by added (graph s1)) (accumulators a)) ->
  bind b (fun a => ret (accumulators a)) s = Some (accs, s') ->
  exists added,
    graph s' = added ++ graph s /\
    fresh_writers (length (graph s)) added /\
    Forall (zero_initialised_in (graph s')) accs.
Proof.
  intros Hinv (a & s1 & added & Hrun & Hg & Hfresh & Hinit) H.
  destruct (bind_ret_inv _ _ _ H) as (r & Hr & ->).
  rewrite Hrun in Hr. injection Hr as <- <-.
  exists added. split; [exact Hg|]. split; [exact Hfresh|].
  rewrite Hg in Hinit |- *.
  eapply Forall_impl; [|exact Hinit]. intros ap.
  apply initialised_by_zero_initialised.
  apply single_writers_extend; assumption.
Qed.

Lemma run_call_step (c : call) (s : Scope F)
  (accs : list (Output * Output)) (s' : Scope F) :
  single_writers (graph s) ->
  run_call NOISE_DIM UNITS NUM_CHANNELS IMAGE_SIZE c s = Some (accs, s') ->
  exists added,
    graph s' = added ++ graph s /\
    fresh_writers (length (graph s)) added /\
    Forall (zero_initialised_in (graph s')) accs.
Proof.
  intros Hinv H. pose proof (run_call_helper c) as Hc.
  destruct c;
    try (destruct Hc as (A & b & Hb & _ & E); rewrite E in H;
         exact (@no_writer_step _ b s accs s' Hb H)).
  - rewrite run_call_Generator in H.
    exact (@network_step _ _ G_accumulators s accs s' Hinv
             (Generator_writes _ _ _ _ _) H).
  - rewrite run_call_Discriminator in H.
    exact (@network_step _ _ D_accumulators s accs s' Hinv
             (Discriminator_writes _ _ _ _ _) H).
Qed.

Lemma run_calls_steps (cs : list call) :
  forall (s : Scope F) (accs : list (Output * Output)) (s' : Scope F),
    single_writers (graph s) ->
    run_calls NOISE_DIM UNITS NUM_CHANNELS IMAGE_SIZE cs s = Some (accs, s') ->
    exists added,
      graph s' = added ++ graph s /\
      fresh_writers (length (graph s)) added /\
      Forall (zero_initialised_in (graph s')) accs.
Proof.
  induction cs as [|c cs IH]; intros s accs s' Hinv H.
  - injection H as <- <-. exists []. split; [reflexivity|].
    split; [apply fresh_writers_nil | constructor].
  - cbn [run_calls] in H. unfold bind at 1 in H.
    destruct (run_call NOISE_DIM UNITS NUM_CHANNELS IMAGE_SIZE c s)
      as [[accs1 s1]|] eqn:E1; [|discriminate H].
    unfold bind in H.
    destruct (run_calls NOISE_DIM UNITS NUM_CHANNELS IMAGE_SIZE cs s1)
      as [[accs2 s2]|] eqn:E2; [|discriminate H].
    injection H as <- <-.
    destruct (run_call_step c s Hinv E1) as (a1 & G1 & F1 & Z1).
    assert (Hinv1 : single_writers (graph s1)).
    { rewrite G1. apply single_writers_extend; assumption. }
    destruct (IH s1 accs2 s2 Hinv1 E2) as (a2 & G2 & F2 & Z2).
    exists (a2 ++ a1). split; [rewrite G2, G1, app_assoc; reflexivity|].
    split.
    + apply fresh_writers_app; [exact F1|].
      rewrite G1, length_app in F2. exact F2.
    + apply Forall_app. split; [|exact Z2].
      eapply Forall_impl; [|exact Z1]. intros ap Hap.
      rewrite G2. apply zero_initialised_extend; assumption.
Qed.

Lemma run_call_returns (c : call) :
  call_defined c ->
  always_returns (run_call NOISE_DIM UNITS NUM_CHANNELS IMAGE_SIZE c).
Proof.
  intros Hdef. pose proof (run_call_helper c) as Hc.
  destruct c;
    try (destruct Hc as (A & b & _ & Hb & ->);
         apply always_returns_bind;
         [exact (Hb Hdef) | intros ?; apply always_returns_ret]).
  - rewrite run_call_Generator.
    apply always_returns_bind; [|intros ?; apply always_returns_ret].
    intros s.
    destruct (Generator_writes NOISE_DIM UNITS NUM_CHANNELS batch_size s)
      as (gen & s1 & _ & Hrun & _).
    exists gen, s1. exact Hrun.
  - rewrite run_call_Discriminator.
    apply always_returns_bind; [|intros ?; apply always_returns_ret].
    intros s.
    destruct (Discriminator_writes NUM_CHANNELS IMAGE_SIZE inputs'
                batch_size s) as (d & s1 & _ & Hrun & _).
    exists d, s1. exact Hrun.
Qed.

Lemma run_calls_returns (cs : list call) :
  Forall call_defined cs ->
  always_returns (run_calls NOISE_DIM UNITS NUM_CHANNELS IMAGE_SIZE cs).
Proof.
  induction 1 as [|c cs Hc _ IH]; cbn [run_calls].
  - apply always_returns_ret.
  - apply always_returns_bind; [apply run_call_returns, Hc|]. intros accs.
    apply always_returns_bind; [exact IH|]. intros accs'.
    apply always_returns_ret.
Qed.

(** C5.  Every sequence of defined calls of the constructions of this
    file, started in a new root scope, builds a graph in which every
    accumulator [_wm], [_wv], [_bm] and [_bv] of every Generator and
    Discriminator built is a variable of the shape of its weight, and the
    one node that writes to it is the [Assign] of [ZerosLike] of that
    weight. *)
Theorem accumulators_zero_initialised_once (cs : list call) :
  Forall call_defined cs ->
  exists accs s',
    run_calls NOISE_DIM UNITS NUM_CHANNELS IMAGE_SIZE cs NewRootScope
      = Some (accs, s') /\
    Forall (fun ap => zero_initialised (graph s') (fst ap) (snd ap)) accs.
Proof.
  intros Hdef.
  destruct (run_calls_returns Hdef NewRootScope) as (accs & s' & H).
  exists accs, s'. split; [exact H|].
  destruct (@run_calls_steps cs NewRootScope accs s') as (added & _ & _ & Z).
  - split; constructor.
  - exact H.
  - exact Z.
Qed.

End Programs.

Lemma accumulators_zero_initialised_once_witness :
  exists accs s',
    run_calls 100 12544 1 28 sample_program NewRootScope = Some (accs, s') /\
    Forall (fun ap => zero_initialised (graph s') (fst ap) (snd ap)) accs.
Proof.
  apply (@accumulators_zero_initialised_once _ _ 100 12544 1 28
           sample_program).
  repeat (apply Forall_cons; [first [exact I | cbn; lia]|]).
  apply Forall_nil.
Defined.

(** The limits of the other shapes this file passes, in binary32:
    0.035355 for {5, 5, 64, 128} and 0.060764 for {5, 5, 1, 64}. *)
Example glorot_limit_5_5_64_128 :
  (let '(fan_in, fan_out) := fans_4D 5 5 64 128 in
   glorot_limit fan_in fan_out)
  = (S754_finite false 9490626 (-28) : Binary32.float32).
Proof. vm_compute. reflexivity. Qed.

Example glorot_limit_5_5_1_64 :
  (let '(fan_in, fan_out) := fans_4D 5 5 1 64 in
   glorot_limit fan_in fan_out)
  = (S754_finite false 16311309 (-28) : Binary32.float32).
Proof. vm_compute. reflexivity. Qed.

(** The theorem on the layers of the Discriminator for an empty input
    given in the program text, with NUM_CHANNELS = 1 and IMAGE_SIZE = 28. *)
Lemma Discriminator_layers_witness :
  let x : Input Binary32.float32 := In_Tensor (list_f []) in
  exists d s',
    Discriminator 1 28 x 2 NewRootScope = Some (d, s') /\
    expression NewRootScope s' (D.output d) =
      Discriminator_forward 28 d (operand x) 2 /\
    node_of (graph s') (D.fc1_weights d) = Some (Variable_node [6272; 1]%Z).
Proof.
  intros x.
  destruct (Discriminator_layers 1 28 x 2 NewRootScope I)
    as (d & s' & Hrun & Hexp & Hw & _).
  exists d, s'. repeat split; assumption.
Defined.

(** The theorem on the weight-sharing constructor for the same input. *)
Lemma Discriminator_shared_same_forward_witness :
  let x : Input Binary32.float32 := In_Tensor (list_f []) in
  exists d s1 o2 s2,
    Discriminator 1 28 x 2 NewRootScope = Some (d, s1) /\
    Discriminator_shared 28 d x 2 s1 = Some (o2, s2) /\
    expression NewRootScope s2 o2 = expression NewRootScope s1 (D.output d).
Proof.
  intros x.
  destruct (Discriminator_shared_same_forward 1 28 x x 2 2 NewRootScope I I)
    as (d & s1 & o2 & s2 & H1 & H2 & _ & _ & Heq).
  exists d, s1, o2, s2. repeat split; try assumption.
  apply Heq; reflexivity.
Defined.

(** * Further properties of the constructions *)

(** ** More on the sigmoid cross entropy *)

(** The stable form is the logistic loss [x - x * z + log(1 + exp(-x))] the
    comment of the source starts from. *)
Lemma logistic_loss_naive (x z : R) :
  logistic_loss x z = (x - x * z + ln (1 + exp (- x)))%R.
Proof.
  unfold logistic_loss.
  destruct (Rle_dec 0 x) as [Hpos | Hneg].
  - rewrite Rmax_left by lra. rewrite Rabs_right by lra. reflexivity.
  - rewrite Rmax_right by lra. rewrite Rabs_left by lra.
    rewrite Ropp_involutive.
    assert (E : (1 + exp x = exp x * (1 + exp (- x)))%R).
    { rewrite Rmult_plus_distr_l, <- exp_plus.
      replace (x + - x)%R with 0%R by lra. rewrite exp_0. lra. }
    pose proof (exp_pos x). pose proof (exp_pos (- x)).
    rewrite E, ln_mult, ln_exp by lra. lra.
Qed.

Lemma logistic_loss_negative (x z : R) :
  (x < 0)%R -> logistic_loss x z = (- x * z + ln (1 + exp x))%R.
Proof.
  intros Hneg. unfold logistic_loss.
  rewrite Rmax_right by lra. rewrite Rabs_left by lra.
  rewrite Ropp_involutive. lra.
Qed.

Lemma softplus_pos (t : R) : (0 < ln (1 + exp t))%R.
Proof.
  pose proof (exp_pos t). rewrite <- ln_1. apply ln_increasing; lra.
Qed.

Lemma logistic_loss_nonneg (x z : R) :
  (0 <= z <= 1)%R -> (0 <= logistic_loss x z)%R.
Proof.
  intros Hz. unfold logistic_loss.
  pose proof (softplus_pos (- Rabs x)).
  destruct (Rle_dec 0 x) as [Hpos | Hneg].
  - rewrite Rmax_left by lra. nra.
  - rewrite Rmax_right by lra. nra.
Qed.

(** X1.  The graph of [SigmoidCrossEntropyWithLogits] computes, at every
    element, the logistic loss [x - x * z + log(1 + exp(-x))] of the comment
    of the source, and for [x < 0] the form [-x * z + log(1 + exp(x))]. *)
Theorem SigmoidCrossEntropyWithLogits_is_logistic_loss
  {F : Type} {FA : FloatArith F} (labels logits : Input F) (s : Scope F) :
  operand_in s labels -> operand_in s logits ->
  exists o s',
    SigmoidCrossEntropyWithLogits labels logits s = Some (o, s') /\
    forall rho u x z,
      denote rho u (operand logits) = Some x ->
      denote rho u (operand labels) = Some z ->
      denote rho u (expression s s' o)
        = Some (x - x * z + ln (1 + exp (- x)))%R /\
      ((x < 0)%R ->
       denote rho u (expression s s' o)
         = Some (- x * z + ln (1 + exp x))%R).
Proof.
  intros Hz Hx.
  destruct (SigmoidCrossEntropyWithLogits_expression labels logits s Hz Hx)
    as (o & s' & Hrun & Hexp).
  exists o, s'. split; [exact Hrun|].
  intros rho u x z Dx Dz. rewrite Hexp.
  rewrite (SigmoidCrossEntropyWithLogits_tree_value rho u _ _ Dx Dz).
  split.
  - rewrite logistic_loss_naive. reflexivity.
  - intros Hneg. rewrite logistic_loss_negative by exact Hneg. reflexivity.
Qed.

(** The theorem above on the label 1 and the logit 2. *)
Lemma SigmoidCrossEntropyWithLogits_is_logistic_loss_witness :
  let labels : Input Binary32.float32 := In_Tensor (list_f [f_of_Z 1]) in
  let logits : Input Binary32.float32 := In_Tensor (list_f [f_of_Z 2]) in
  exists o s',
    SigmoidCrossEntropyWithLogits labels logits NewRootScope = Some (o, s') /\
    forall rho u,
      denote rho u (expression NewRootScope s' o)
        = Some (2 - 2 * 1 + ln (1 + exp (- 2)))%R.
Proof.
  intros labels logits.
  destruct (@SigmoidCrossEntropyWithLogits_is_logistic_loss _ _ labels logits
              NewRootScope I I) as (o & s' & Hrun & Hval).
  exists o, s'. split; [exact Hrun|].
  intros rho u. apply (Hval rho u 2%R 1%R).
  - cbn. f_equal. lra.
  - cbn. f_equal. lra.
Defined.

(** X2.  On labels between 0 and 1 the loss the graph computes is never
    negative; on the label 1 it is [log(1 + exp(-x))] and on the label 0 it
    is [log(1 + exp(x))]. *)
Theorem SigmoidCrossEntropyWithLogits_on_probabilities
  {F : Type} {FA : FloatArith F} (labels logits : Input F) (s : Scope F) :
  operand_in s labels -> operand_in s logits ->
  exists o s',
    SigmoidCrossEntropyWithLogits labels logits s = Some (o, s') /\
    forall rho u x z,
      denote rho u (operand logits) = Some x ->
      denote rho u (operand labels) = Some z ->
      exists v,
        denote rho u (expression s s' o) = Some v /\
        ((0 <= z <= 1)%R -> (0 <= v)%R) /\
        (z = 1%R -> v = ln (1 + exp (- x))) /\
        (z = 0%R -> v = ln (1 + exp x)).
Proof.
  intros Hz Hx.
  destruct (SigmoidCrossEntropyWithLogits_expression labels logits s Hz Hx)
    as (o & s' & Hrun & Hexp).
  exists o, s'. split; [exact Hrun|].
  intros rho u x z Dx Dz. exists (logistic_loss x z).
  split; [|split; [|split]].
  - rewrite Hexp.
    exact (SigmoidCrossEntropyWithLogits_tree_value rho u _ _ Dx Dz).
  - apply logistic_loss_nonneg.
  - intros ->. rewrite logistic_loss_naive. lra.
  - intros ->. rewrite logistic_loss_naive.
    assert (E : (1 + exp x = exp x * (1 + exp (- x)))%R).
    { rewrite Rmult_plus_distr_l, <- exp_plus.
      replace (x + - x)%R with 0%R by lra. rewrite exp_0. lra. }
    pose proof (exp_pos x). pose proof (exp_pos (- x)).
    rewrite E, ln_mult, ln_exp by lra. lra.
Qed.

(** The theorem above on the label 1 and the logit 2. *)
Lemma SigmoidCrossEntropyWithLogits_on_probabilities_witness :
  let labels : Input Binary32.float32 := In_Tensor (list_f [f_of_Z 1]) in
  let logits : Input Binary32.float32 := In_Tensor (list_f [f_of_Z 2]) in
  exists o s',
    SigmoidCrossEntropyWithLogits labels logits NewRootScope = Some (o, s') /\
    forall rho u,
      exists v,
        denote rho u (expression NewRootScope s' o) = Some v /\
        (0 <= v)%R /\ v = ln (1 + exp (- 2)).
Proof.
  intros labels logits.
  destruct (@SigmoidCrossEntropyWithLogits_on_probabilities _ _ labels logits
              NewRootScope I I) as (o & s' & Hrun & Hval).
  exists o, s'. split; [exact Hrun|].
  intros rho u.
  destruct (Hval rho u 2%R 1%R) as (v & Hv & Hpos & Hone & _).
  - cbn. f_equal. lra.
  - cbn. f_equal. lra.
  - exists v. split; [exact Hv|]. split; [apply Hpos; lra | apply Hone].
    reflexivity.
Defined.

(** ** More on dropout *)

(** X3.  The rate of [Dropout] is an [int], and in exact arithmetic the
    graph then drops and rescales nothing: for every rate but 1 (where the
    keep probability is 0 and the graph divides by it) for which [1 - rate]
    is an [int] too, each element of the output is the element of the
    input, whatever the sample. *)
Theorem Dropout_integer_rate_is_identity (x : Input R) (rate : Z)
  (s : Scope R) :
  operand_in s x ->
  (2 - 2 ^ 31 <= rate <= 2 ^ 31 - 1)%Z ->
  rate <> 1%Z ->
  exists o s',
    Dropout x rate s = Some (o, s') /\
    forall rho u vx,
      (0 <= u < 1)%R ->
      denote rho u (operand x) = Some vx ->
      denote rho u (expression s s' o) = Some vx.
Proof.
  intros Hx _ Hrate.
  destruct (Dropout_expression x rate s Hx) as (o & s' & Hrun & Hexp).
  exists o, s'. split; [exact Hrun|].
  intros rho u vx Hu Dx. rewrite Hexp.
  rewrite (Dropout_tree_value rho u _ _ Dx). cbn [f_val f_of_Z Real_arith].
  rewrite Zfloor_addz, (Zfloor_eq 0 u) by (cbn; lra).
  f_equal. cbn [Z.add].
  assert (Hk : IZR (1 - rate) <> 0%R) by (apply not_0_IZR; lia).
  field. exact Hk.
Qed.

(** The theorem above at the rate -2, on the element 5 and the sample 1/2. *)
Lemma Dropout_integer_rate_is_identity_witness :
  exists o s',
    Dropout (In_Tensor (list_f [5%R])) (-2) (NewRootScope (F := R))
      = Some (o, s') /\
    denote (fun _ => 0%R) (1 / 2)%R (expression NewRootScope s' o)
      = Some 5%R.
Proof.
  destruct (@Dropout_integer_rate_is_identity (In_Tensor (list_f [5%R]))
              (-2) NewRootScope I) as (o & s' & Hrun & Hval).
  - lia.
  - lia.
  - exists o, s'. split; [exact Hrun|].
    apply Hval; [lra | reflexivity].
Defined.

(** ** More on the Glorot limits *)

Lemma glorot_limit_textbook (fan_in fan_out : R) :
  (2 <= fan_in + fan_out)%R ->
  glorot_limit fan_in fan_out = sqrt (6 / (fan_in + fan_out)).
Proof.
  intros H. rewrite glorot_limit_real.
  rewrite Rmax_right by lra. f_equal. field. lra.
Qed.

Lemma glorot_limit_clamped (fan_in fan_out : R) :
  (fan_in + fan_out <= 2)%R ->
  glorot_limit fan_in fan_out = sqrt 3.
Proof.
  intros H. rewrite glorot_limit_real.
  rewrite Rmax_left by lra. f_equal. field.
Qed.

(** X4.  In exact arithmetic, for fans that sum to 2 or more the limit of
    [GlorotUniform] is the usual [sqrt(6 / (fan_in + fan_out))]: for a
    shape [a, b] the limit is [sqrt(6 / (a + b))], for a shape
    [h, w, in, out] it is [sqrt(6 / (h * w * (in + out)))]. *)
Theorem GlorotUniform_textbook_limit (s : Scope R) :
  (forall a b : Z,
     (2 <= a + b)%Z ->
     exists o s',
       GlorotUniform [a; b] s = Some (o, s') /\
       expression s s' o =
         GlorotUniform_tree [a; b] (sqrt (6 / IZR (a + b)))) /\
  (forall h w c_in c_out : Z,
     (2 <= h * w * (c_in + c_out))%Z ->
     exists o s',
       GlorotUniform [h; w; c_in; c_out] s = Some (o, s') /\
       expression s s' o =
         GlorotUniform_tree [h; w; c_in; c_out]
           (sqrt (6 / IZR (h * w * (c_in + c_out))))).
Proof.
  split.
  - intros a b Hab.
    destruct (GlorotUniform_expression [a; b] s eq_refl)
      as (o & s' & Hrun & Hexp).
    exists o, s'. split; [exact Hrun|]. rewrite Hexp. f_equal.
    cbn [f_of_Z Real_arith]. rewrite plus_IZR.
    apply glorot_limit_textbook. rewrite <- plus_IZR. apply IZR_le. exact Hab.
  - intros h w c_in c_out Hf.
    destruct (GlorotUniform_expression [h; w; c_in; c_out] s eq_refl)
      as (o & s' & Hrun & Hexp).
    exists o, s'. split; [exact Hrun|]. rewrite Hexp. f_equal.
    unfold fans_4D. cbn [f_of_Z f_mul Real_arith].
    assert (E : (1 * IZR h * IZR w * IZR c_in + 1 * IZR h * IZR w * IZR c_out
                 = IZR (h * w * (c_in + c_out)))%R).
    { rewrite !mult_IZR, plus_IZR. ring. }
    rewrite glorot_limit_textbook; rewrite E; [reflexivity|].
    apply IZR_le. exact Hf.
Qed.

(** The theorem above on the kernel {5, 5, 128, 256}, whose fans sum to 9600. *)
Lemma GlorotUniform_textbook_limit_witness :
  exists o s',
    GlorotUniform [5; 5; 128; 256]%Z (NewRootScope (F := R)) = Some (o, s') /\
    expression NewRootScope s' o =
      GlorotUniform_tree [5; 5; 128; 256]%Z (sqrt (6 / 9600)).
Proof.
  destruct (GlorotUniform_textbook_limit (NewRootScope (F := R)))
    as (_ & H).
  apply (H 5 5 128 256)%Z. lia.
Defined.

(** X5.  In exact arithmetic, for fans that sum to 2 or less (a shape with
    an empty or a negative dimension, or the shape [1, 1]) the scale is
    clamped to 1 and the limit of [GlorotUniform] is [sqrt(3)]. *)
Theorem GlorotUniform_clamped_limit (s : Scope R) :
  (forall a b : Z,
     (a + b <= 2)%Z ->
     exists o s',
       GlorotUniform [a; b] s = Some (o, s') /\
       expression s s' o = GlorotUniform_tree [a; b] (sqrt 3)) /\
  (forall h w c_in c_out : Z,
     (h * w * (c_in + c_out) <= 2)%Z ->
     exists o s',
       GlorotUniform [h; w; c_in; c_out] s = Some (o, s') /\
       expression s s' o = GlorotUniform_tree [h; w; c_in; c_out] (sqrt 3)).
Proof.
  split.
  - intros a b Hab.
    destruct (GlorotUniform_expression [a; b] s eq_refl)
      as (o & s' & Hrun & Hexp).
    exists o, s'. split; [exact Hrun|]. rewrite Hexp. f_equal.
    cbn [f_of_Z Real_arith].
    apply glorot_limit_clamped. rewrite <- plus_IZR. apply IZR_le. exact Hab.
  - intros h w c_in c_out Hf.
    destruct (GlorotUniform_expression [h; w; c_in; c_out] s eq_refl)
      as (o & s' & Hrun & Hexp).
    exists o, s'. split; [exact Hrun|]. rewrite Hexp. f_equal.
    unfold fans_4D. cbn [f_of_Z f_mul Real_arith].
    assert (E : (1 * IZR h * IZR w * IZR c_in + 1 * IZR h * IZR w * IZR c_out
                 = IZR (h * w * (c_in + c_out)))%R).
    { rewrite !mult_IZR, plus_IZR. ring. }
    apply glorot_limit_clamped. rewrite E. apply IZR_le. exact Hf.
Qed.

(** The theorem above on the shape {0, 2}. *)
Lemma GlorotUniform_clamped_limit_witness :
  exists o s',
    GlorotUniform [0; 2]%Z (NewRootScope (F := R)) = Some (o, s') /\
    expression NewRootScope s' o = GlorotUniform_tree [0; 2]%Z (sqrt 3).
Proof.
  destruct (GlorotUniform_clamped_limit (NewRootScope (F := R)))
    as (H & _).
  apply (H 0 2)%Z. lia.
Defined.

Lemma glorot_limit_bounds (fan_in fan_out : R) :
  (0 < glorot_limit fan_in fan_out <= sqrt 3)%R.
Proof.
  rewrite glorot_limit_real.
  pose proof (Rmax_l 1 ((fan_in + fan_out) / 2)) as Hmax.
  set (m := Rmax 1 ((fan_in + fan_out) / 2)) in *.
  assert (Hinv : (0 < 1 / m <= 1)%R).
  { split.
    - apply Rdiv_lt_0_compat; lra.
    - unfold Rdiv. rewrite Rmult_1_l, <- Rinv_1.
      apply Rinv_le_contravar; lra. }
  split.
  - apply sqrt_lt_R0. lra.
  - apply sqrt_le_1; lra.
Qed.

(** X13.  In exact arithmetic, whatever the shape, the weights
    [GlorotUniform] draws lie in the half-open interval from [-sqrt(3)] to
    [sqrt(3)]: the limit is positive and at most [sqrt(3)], and a sample
    [u] of [0, 1) is moved to [-limit <= v < limit]. *)
Theorem GlorotUniform_samples_bounded (shape : list Z) (s : Scope R) :
  2 <= length shape ->
  exists o s' limit,
    GlorotUniform shape s = Some (o, s') /\
    expression s s' o = GlorotUniform_tree shape limit /\
    (0 < limit <= sqrt 3)%R /\
    forall rho u,
      (0 <= u < 1)%R ->
      exists v,
        denote rho u (expression s s' o) = Some v /\
        (- limit <= v < limit)%R /\ (- sqrt 3 <= v < sqrt 3)%R.
Proof.
  intros Hlen.
  assert (Hfans : exists fan_in fan_out : R,
            fans_of shape = Some (fan_in, fan_out)).
  { destruct shape as [|a [|b [|c [|d [|e rest]]]]]; cbn in Hlen;
      first [lia | eexists; eexists; reflexivity]. }
  destruct Hfans as (fan_in & fan_out & Hfans).
  destruct (GlorotUniform_expression shape s Hfans)
    as (o & s' & Hrun & Hexp).
  pose proof (glorot_limit_bounds fan_in fan_out) as Hl.
  exists o, s', (glorot_limit fan_in fan_out).
  split; [exact Hrun|]. split; [exact Hexp|]. split; [exact Hl|].
  intros rho u Hu. rewrite Hexp, GlorotUniform_tree_value.
  eexists. split; [reflexivity|]. split; nra.
Qed.

(** The theorem above on the kernel {5, 5, 64, 128}. *)
Lemma GlorotUniform_samples_bounded_witness :
  exists o s' limit,
    GlorotUniform [5; 5; 64; 128]%Z (NewRootScope (F := R)) = Some (o, s') /\
    expression NewRootScope s' o = GlorotUniform_tree [5; 5; 64; 128]%Z limit /\
    (0 < limit <= sqrt 3)%R.
Proof.
  destruct (@GlorotUniform_samples_bounded [5; 5; 64; 128]%Z NewRootScope)
    as (o & s' & limit & Hrun & Hexp & Hl & _).
  - cbn. lia.
  - exists o, s', limit. split; [exact Hrun|]. split; [exact Hexp | exact Hl].
Defined.

(** ** More on batch normalization *)



(** ** The initial values of the weights *)

Section Initialisation.

Context {F : Type} {FA : FloatArith F}.

Lemma node_of_In (g : list (NodeDef F)) (o : Output) (n : NodeDef F) :
  node_of g o = Some n -> In n g.
Proof.
  induction g as [|m g IH]; simpl; [discriminate|].
  destruct (Nat.eqb (node o) (length g)).
  - intros H. injection H as ->. left. reflexivity.
  - intros H. right. exact (IH H).
Qed.

Lemma initialised_with_intro (s0 s1 : Scope F) (v assign : Output)
  (shape : list Z) (value : tm F) (z : Output) :
  single_writers (graph s1) ->
  node_of (graph s1) v = Some (Variable_node shape) ->
  node_of (graph s1) assign = Some (Assign_node v z) ->
  expression s0 s1 assign = t_Assign (T_ref v) value ->
  initialised_with s0 s1 v assign shape value.
Proof.
  intros [Hnd _] Hv Ha He. split; [exact Hv|]. split; [exact He|].
  exists z. split; [exact Ha|].
  apply unique_writer; [exact Hnd | | reflexivity].
  exact (node_of_In _ _ Ha).
Qed.

End Initialisation.

Section GeneratorWeights.

Context {F : Type} {FA : FloatArith F}.

Variables NOISE_DIM UNITS NUM_CHANNELS : Z.

Local Open Scope Z_scope.

(** X7.  In a scope where no two nodes write to one variable, the Generator
    declares each of its weights as a variable and initialises it once:
    [w1], of shape [NOISE_DIM, UNITS], with random normal values of that
    shape times 0.01, and the kernels [filter], [filter2] and [filter3] with
    the Glorot uniform values of their own shape; the member [assign_...]
    of a weight is the one node that writes to it.  The construction adds
    twelve variables and twelve [Assign] nodes. *)
Theorem Generator_weights_initialised (batch_size : Z) (s : Scope F) :
  single_writers (graph s) ->
  exists gen s',
    Generator NOISE_DIM UNITS NUM_CHANNELS batch_size s = Some (gen, s') /\
    initialised_with s s' (G.w1 gen) (G.assign_w1 gen) [NOISE_DIM; UNITS]
      (t_Multiply
         (t_RandomNormal (t_Const (list_i32 [NOISE_DIM; UNITS])) DT_FLOAT)
         (t_Const (list_f [f_lit 1 100]))) /\
    initialised_with s s' (G.filter gen) (G.assign_filter gen)
      [5; 5; 128; 256] (Glorot_4D_tree 5 5 128 256) /\
    initialised_with s s' (G.filter2 gen) (G.assign_filter2 gen)
      [5; 5; 64; 128] (Glorot_4D_tree 5 5 64 128) /\
    initialised_with s s' (G.filter3 gen) (G.assign_filter3 gen)
      [5; 5; NUM_CHANNELS; 64] (Glorot_4D_tree 5 5 NUM_CHANNELS 64) /\
    (count_op Op_Variable (graph s') = 12 + count_op Op_Variable (graph s) /\
     count_op Op_Assign (graph s') = 12 + count_op Op_Assign (graph s))%nat.
Proof.
  intros Hinv.
  destruct (Generator_writes NOISE_DIM UNITS NUM_CHANNELS batch_size s)
    as (gen & s' & added & Hrun & Hg & Hfresh & _).
  pose proof (single_writers_extend Hinv Hfresh) as Hsw. rewrite <- Hg in Hsw.
  clear Hg Hfresh added.
  exists gen, s'. split; [exact Hrun|].
  revert Hrun. cbn. unfold ret. intros Hrun.
  injection Hrun as Egen Es. subst gen s'.
  cbn [graph] in Hsw.
  cbn [G.w1 G.assign_w1 G.filter G.assign_filter G.filter2 G.assign_filter2
       G.filter3 G.assign_filter3].
  split; [|split; [|split; [|split; [|split; reflexivity]]]];
    (eapply initialised_with_intro;
     [ exact Hsw | cbn [graph]; find_node | cbn [graph]; find_node
     | read_back; reflexivity ]).
Qed.

End GeneratorWeights.

(** The theorem above in a new root scope, with NOISE_DIM = 100,
    UNITS = 12544 and NUM_CHANNELS = 1. *)
Lemma Generator_weights_initialised_witness :
  exists gen s',
    Generator 100 12544 1 2 (NewRootScope (F := Binary32.float32))
      = Some (gen, s') /\
    initialised_with NewRootScope s' (G.filter3 gen) (G.assign_filter3 gen)
      [5; 5; 1; 64]%Z (Glorot_4D_tree 5 5 1 64).
Proof.
  destruct (@Generator_weights_initialised Binary32.float32 _ 100 12544 1 2
              NewRootScope) as (gen & s' & Hrun & _ & _ & _ & H3 & _).
  - split; constructor.
  - exists gen, s'. split; [exact Hrun | exact H3].
Defined.

Section DiscriminatorWeights.

Context {F : Type} {FA : FloatArith F}.

Variables NUM_CHANNELS IMAGE_SIZE : Z.

Local Open Scope Z_scope.

(** X8.  In a scope where no two nodes write to one variable, the
    Discriminator declares its weights and biases as variables and
    initialises each of them once: the weights with the Glorot uniform
    values of their own shape, [fc1_weights] for the shape [s1, 1] with
    [s1 = (IMAGE_SIZE / 4)^2 * 128], and the biases with a tensor of zeros
    of their own shape; the member [assign_...] of a variable is the one
    node that writes to it.  The construction adds eighteen variables and
    eighteen [Assign] nodes. *)
Theorem Discriminator_weights_initialised (inputs' : Input F)
  (batch_size : Z) (s : Scope F) :
  single_writers (graph s) ->
  exists d s',
    Discriminator NUM_CHANNELS IMAGE_SIZE inputs' batch_size s
      = Some (d, s') /\
    initialised_with s s' (D.conv1_weights d) (D.assign_conv1_weights d)
      [5; 5; NUM_CHANNELS; 64] (Glorot_4D_tree 5 5 NUM_CHANNELS 64) /\
    initialised_with s s' (D.conv1_biases d) (D.assign_conv1_biases d)
      [64] (t_Const (fill_f (f_of_Z 0) [64])) /\
    initialised_with s s' (D.conv2_weights d) (D.assign_conv2_weights d)
      [5; 5; 64; 128] (Glorot_4D_tree 5 5 64 128) /\
    initialised_with s s' (D.conv2_biases d) (D.assign_conv2_biases d)
      [128] (t_Const (fill_f (f_of_Z 0) [128])) /\
    initialised_with s s' (D.fc1_weights d) (D.assign_fc1_weights d)
      [(Z.quot IMAGE_SIZE 4) ^ 2 * 128; 1]
      (Glorot_2D_tree ((Z.quot IMAGE_SIZE 4) ^ 2 * 128) 1) /\
    initialised_with s s' (D.fc1_biases d) (D.assign_fc1_biases d)
      [1] (t_Const (fill_f (f_of_Z 0) [1])) /\
    (count_op Op_Variable (graph s') = 18 + count_op Op_Variable (graph s) /\
     count_op Op_Assign (graph s') = 18 + count_op Op_Assign (graph s))%nat.
Proof.
  intros Hinv.
  destruct (Discriminator_writes NUM_CHANNELS IMAGE_SIZE inputs' batch_size s)
    as (d & s' & added & Hrun & Hg & Hfresh & _).
  pose proof (single_writers_extend Hinv Hfresh) as Hsw. rewrite <- Hg in Hsw.
  clear Hg Hfresh added.
  exists d, s'. split; [exact Hrun|].
  revert Hrun.
  destruct inputs' as [x | t]; cbn; unfold ret; intros Hrun;
    injection Hrun as Ed Es; subst d s';
    cbn [graph] in Hsw;
    cbn [D.conv1_weights D.assign_conv1_weights D.conv1_biases
         D.assign_conv1_biases D.conv2_weights D.assign_conv2_weights
         D.conv2_biases D.assign_conv2_biases D.fc1_weights
         D.assign_fc1_weights D.fc1_biases D.assign_fc1_biases];
    (split; [|split; [|split; [|split; [|split; [|split;
       [|split; reflexivity]]]]]]);
    (eapply initialised_with_intro;
     [ exact Hsw | cbn [graph]; find_node | cbn [graph]; find_node
     | read_back; reflexivity ]).
Qed.

(** X9.  The constructor that takes an existing Discriminator declares no
    variable and adds no [Assign]: every variable keeps the writers it had.
    It adds two [RandomUniform] nodes, the samples of its own two
    dropouts. *)
Theorem Discriminator_shared_declares_nothing (disc : D.members)
  (inputs' : Input F) (batch_size : Z) (s : Scope F) :
  exists o s',
    Discriminator_shared IMAGE_SIZE disc inputs' batch_size s
      = Some (o, s') /\
    count_op Op_Variable (graph s') = count_op Op_Variable (graph s) /\
    count_op Op_Assign (graph s') = count_op Op_Assign (graph s) /\
    (forall v, writers (graph s') v = writers (graph s) v) /\
    count_op Op_RandomUniform (graph s')
      = (2 + count_op Op_RandomUniform (graph s))%nat.
Proof.
  destruct inputs' as [x | t]; cbn; unfold ret;
    (eexists; eexists; split; [reflexivity|]);
    repeat split; reflexivity.
Qed.

End DiscriminatorWeights.

(** The theorem above in a new root scope, with NUM_CHANNELS = 1 and
    IMAGE_SIZE = 28. *)
Lemma Discriminator_weights_initialised_witness :
  let x : Input Binary32.float32 := In_Tensor (list_f []) in
  exists d s',
    Discriminator 1 28 x 2 NewRootScope = Some (d, s') /\
    initialised_with NewRootScope s' (D.fc1_weights d)
      (D.assign_fc1_weights d) [6272; 1]%Z (Glorot_2D_tree 6272 1) /\
    initialised_with NewRootScope s' (D.fc1_biases d)
      (D.assign_fc1_biases d) [1]%Z (t_Const (fill_f (f_of_Z 0) [1]%Z)).
Proof.
  intros x.
  destruct (@Discriminator_weights_initialised Binary32.float32 _ 1 28 x 2
              NewRootScope)
    as (d & s' & Hrun & _ & _ & _ & _ & Hw & Hb & _).
  - split; constructor.
  - exists d, s'. split; [exact Hrun|]. split; [exact Hw | exact Hb].
Defined.


(** ** What a sequence of calls leaves as it is *)

Section Appends.

Context {F : Type} {FA : FloatArith F}.

Variables NOISE_DIM UNITS NUM_CHANNELS IMAGE_SIZE : Z.

Local Open Scope build_scope.

Lemma run_call_appends (c : call) (s : Scope F)
  (accs : list (Output * Output)) (s' : Scope F) :
  run_call NOISE_DIM UNITS NUM_CHANNELS IMAGE_SIZE c s = Some (accs, s') ->
  exists added, graph s' = added ++ graph s.
Proof.
  intros H. pose proof (run_call_helper NOISE_DIM UNITS NUM_CHANNELS
                          IMAGE_SIZE c) as Hc.
  destruct c;
    try (destruct Hc as (A & b & Hb & _ & E); rewrite E in H;
         destruct (no_writer_step s Hb H)
           as (added & Hg & _);
         exists added; exact Hg).
  - rewrite run_call_Generator in H.
    destruct (bind_ret_inv _ _ _ H) as (gen & Hrun & _).
    destruct (Generator_writes NOISE_DIM UNITS NUM_CHANNELS batch_size s)
      as (gen' & s1 & added & Hrun' & Hg & _).
    rewrite Hrun in Hrun'. injection Hrun' as _ <-.
    exists added. exact Hg.
  - rewrite run_call_Discriminator in H.
    destruct (bind_ret_inv _ _ _ H) as (d & Hrun & _).
    destruct (Discriminator_writes NUM_CHANNELS IMAGE_SIZE inputs'
                batch_size s) as (d' & s1 & added & Hrun' & Hg & _).
    rewrite Hrun in Hrun'. injection Hrun' as _ <-.
    exists added. exact Hg.
Qed.

Lemma run_calls_appends (cs : list call) :
  forall (s : Scope F) (accs : list (Output * Output)) (s' : Scope F),
    run_calls NOISE_DIM UNITS NUM_CHANNELS IMAGE_SIZE cs s = Some (accs, s') ->
    exists added, graph s' = added ++ graph s.
Proof.
  induction cs as [|c cs IH]; intros s accs s' H.
  - injection H as <- <-. exists []. reflexivity.
  - cbn [run_calls] in H. unfold bind at 1 in H.
    destruct (run_call NOISE_DIM UNITS NUM_CHANNELS IMAGE_SIZE c s)
      as [[accs1 s1]|] eqn:E1; [|discriminate H].
    unfold bind in H.
    destruct (run_calls NOISE_DIM UNITS NUM_CHANNELS IMAGE_SIZE cs s1)
      as [[accs2 s2]|] eqn:E2; [|discriminate H].
    injection H as <- <-.
    destruct (run_call_appends _ _ E1) as (a1 & G1).
    destruct (IH _ _ _ E2) as (a2 & G2).
    exists (a2 ++ a1). rewrite G2, G1, app_assoc. reflexivity.
Qed.

(** X10.  A sequence of defined calls of the constructions of this file
    only adds nodes: the graph it ends with is the graph it started from
    with the new nodes put before it, and every output of the initial graph
    keeps its node and its tree. *)
Theorem run_calls_keep_the_graph (cs : list call) (s : Scope F) :
  Forall call_defined cs ->
  exists accs s' added,
    run_calls NOISE_DIM UNITS NUM_CHANNELS IMAGE_SIZE cs s = Some (accs, s') /\
    graph s' = added ++ graph s /\
    forall o,
      node o < length (graph s) ->
      node_of (graph s') o = node_of (graph s) o /\
      forall base, tm_at base (graph s') o = tm_at base (graph s) o.
Proof.
  intros Hdef.
  destruct (run_calls_returns NOISE_DIM UNITS NUM_CHANNELS IMAGE_SIZE Hdef s)
    as (accs & s' & H).
  destruct (run_calls_appends _ _ H) as (added & Hg).
  exists accs, s', added. split; [exact H|]. split; [exact Hg|].
  intros o Ho. rewrite Hg. split.
  - apply node_of_skip, Ho.
  - intros base. apply tm_at_skip, Ho.
Qed.

End Appends.

(** The theorem above for the sample program, run on a graph of one
    variable. *)
Lemma run_calls_keep_the_graph_witness :
  let s : Scope Binary32.float32 := {| graph := [Variable_node [1]%Z] |} in
  let v := {| node := 0; index := 0 |} in
  exists accs s',
    run_calls 100 12544 1 28 sample_program s = Some (accs, s') /\
    node_of (graph s') v = Some (Variable_node [1]%Z).
Proof.
  intros s v.
  destruct (@run_calls_keep_the_graph _ _ 100 12544 1 28 sample_program s)
    as (accs & s' & added & Hrun & _ & Hkeep).
  - repeat (apply Forall_cons; [first [exact I | cbn; lia]|]).
    apply Forall_nil.
  - exists accs, s'. split; [exact Hrun|].
    destruct (Hkeep v) as [Hnode _]; [cbn; lia|].
    rewrite Hnode. reflexivity.
Defined.

(** ** Well-formed graphs *)

(** One node on top of a graph whose length is known. *)
Lemma well_formed_cons {F : Type} (n : NodeDef F) (g : list (NodeDef F))
  (len : nat) :
  length (n :: g) = S len ->
  Forall (fun i => node i < len) (inputs n) ->
  (length g = len -> well_formed g) ->
  well_formed (n :: g).
Proof.
  intros HL Hin Hg. injection HL as HL.
  split; [rewrite HL; exact Hin | exact (Hg HL)].
Qed.

(** Checks a graph given node by node, on top of a well-formed graph. *)
Ltac well_formed_graph Hwf :=
  cbn [graph app];
  lazymatch goal with
  | |- well_formed ?g =>
      let len := eval cbn in (length g) in
      let HL := fresh "HL" in
      assert (HL : length g = len) by reflexivity;
      repeat (apply (well_formed_cons HL); clear HL; [ids_lt | intros HL]);
      exact Hwf
  end.

Section WellFormed.

Context {F : Type} {FA : FloatArith F}.

Variables NOISE_DIM UNITS NUM_CHANNELS IMAGE_SIZE : Z.

Local Open Scope build_scope.

Lemma Generator_well_formed (batch_size : Z) (s : Scope F) :
  well_formed (graph s) ->
  exists gen s',
    Generator NOISE_DIM UNITS NUM_CHANNELS batch_size s = Some (gen, s') /\
    well_formed (graph s').
Proof.
  intros Hwf. cbn. unfold ret. eexists; eexists. split; [reflexivity|].
  well_formed_graph Hwf.
Qed.

Lemma Discriminator_well_formed (inputs' : Input F) (batch_size : Z)
  (s : Scope F) :
  well_formed (graph s) -> operand_in s inputs' ->
  exists d s',
    Discriminator NUM_CHANNELS IMAGE_SIZE inputs' batch_size s
      = Some (d, s') /\
    well_formed (graph s').
Proof.
  intros Hwf Hin.
  destruct inputs' as [x | t]; cbn in Hin |- *; unfold ret;
    (eexists; eexists; split; [reflexivity|]);
    well_formed_graph Hwf.
Qed.

Lemma run_call_keeps_well_formed (c : call) (s : Scope F)
  (accs : list (Output * Output)) (s' : Scope F) :
  well_formed (graph s) ->
  call_operands_in s c ->
  run_call NOISE_DIM UNITS NUM_CHANNELS IMAGE_SIZE c s = Some (accs, s') ->
  well_formed (graph s').
Proof.
  intros Hwf Hin H. destruct c.
  - destruct Hin as (Hx & Hm & Hv & Ho & He).
    destruct x, mean, variance, offset, variance_epsilon;
      cbn in Hx, Hm, Hv, Ho, He, H; injection H as _ <-;
      well_formed_graph Hwf.
  - destruct x; cbn in Hin, H; injection H as _ <-; well_formed_graph Hwf.
  - destruct Hin as (Hz & Hx).
    destruct labels, logits; cbn in Hz, Hx, H; injection H as _ <-;
      well_formed_graph Hwf.
  - cbn [run_call] in H. unfold bind in H. rewrite GlorotUniform_run in H.
    destruct (fans_of shape) as [[fan_in fan_out]|]; [|discriminate H].
    cbn in H. injection H as _ <-. well_formed_graph Hwf.
  - destruct Hin as (Hi & Hf & Ho).
    destruct input_sizes, filter, out_backprop; cbn in Hi, Hf, Ho, H;
      injection H as _ <-; well_formed_graph Hwf.
  - rewrite run_call_Generator in H.
    destruct (bind_ret_inv _ _ _ H) as (gen & Hrun & _).
    destruct (Generator_well_formed batch_size s Hwf)
      as (gen' & s1 & Hrun' & Hwf').
    rewrite Hrun in Hrun'. injection Hrun' as _ <-. exact Hwf'.
  - rewrite run_call_Discriminator in H.
    destruct (bind_ret_inv _ _ _ H) as (d & Hrun & _).
    destruct (Discriminator_well_formed inputs' batch_size s Hwf Hin)
      as (d' & s1 & Hrun' & Hwf').
    rewrite Hrun in Hrun'. injection Hrun' as _ <-. exact Hwf'.
  - destruct Hin as (Hx & H1 & H2 & H3 & H4 & H5 & H6).
    destruct inputs' as [x | t]; cbn in Hx, H; injection H as _ <-;
      well_formed_graph Hwf.
Qed.

(** X11.  Run on a graph in which every node reads outputs of nodes built
    before it, a sequence of defined calls that find their operands in scope
    builds a graph with the same property. *)
Theorem run_calls_keep_well_formed (cs : list call) :
  forall s : Scope F,
    well_formed (graph s) ->
    Forall call_defined cs ->
    operands_in_scope NOISE_DIM UNITS NUM_CHANNELS IMAGE_SIZE cs s ->
    exists accs s',
      run_calls NOISE_DIM UNITS NUM_CHANNELS IMAGE_SIZE cs s
        = Some (accs, s') /\
      well_formed (graph s').
Proof.
  induction cs as [|c cs IH]; intros s Hwf Hdef Hops.
  - exists [], s. split; [reflexivity | exact Hwf].
  - apply Forall_cons_iff in Hdef. destruct Hdef as [Hc Hdef].
    cbn [operands_in_scope] in Hops. destruct Hops as [Hin Hops].
    destruct (run_call_returns NOISE_DIM UNITS NUM_CHANNELS IMAGE_SIZE c Hc s)
      as (accs1 & s1 & E1).
    rewrite E1 in Hops.
    pose proof (run_call_keeps_well_formed c s Hwf Hin E1) as Hwf1.
    destruct (IH s1 Hwf1 Hdef Hops) as (accs2 & s2 & E2 & Hwf2).
    exists (accs1 ++ accs2), s2. split; [|exact Hwf2].
    cbn [run_calls]. unfold bind. rewrite E1, E2. reflexivity.
Qed.

End WellFormed.

(** The theorem above for the sample program, run in a new root scope. *)
Lemma run_calls_keep_well_formed_witness :
  exists accs s',
    run_calls 100 12544 1 28 sample_program NewRootScope = Some (accs, s') /\
    well_formed (graph s').
Proof.
  apply (@run_calls_keep_well_formed _ _ 100 12544 1 28 sample_program
           NewRootScope).
  - exact I.
  - repeat (apply Forall_cons; [first [exact I | cbn; lia]|]).
    apply Forall_nil.
  - vm_compute. repeat split. lia.
Defined.

(** ** The Discriminator on the images of the Generator *)

Section Rebase.

Context {F : Type} {FA : FloatArith F}.

Lemma tm_at_fresh (base : nat) (g : list (NodeDef F)) (o : Output) :
  length g <= node o -> tm_at base g o = T_ref o.
Proof.
  induction g as [|n g IH]; simpl; [reflexivity|]. intros Hle.
  destruct (Nat.eqb_spec (node o) (length g)); [lia|]. apply IH. lia.
Qed.

Lemma tm_at_closed (base : nat) (g : list (NodeDef F)) (o : Output) :
  length g <= base -> tm_at base g o = T_ref o.
Proof.
  intros Hle. destruct (Nat.lt_ge_cases (node o) base) as [Hlt | Hge].
  - apply tm_at_old, Hlt.
  - apply tm_at_fresh. lia.
Qed.

Lemma tm_at_variable (base : nat) (g : list (NodeDef F)) (o : Output)
  (shape : list Z) :
  node_of g o = Some (Variable_node shape) -> tm_at base g o = T_ref o.
Proof.
  induction g as [|n g IH]; simpl; [discriminate|].
  destruct (Nat.eqb (node o) (length g)); [|exact IH].
  intros H. injection H as ->. simpl. rewrite orb_true_r. reflexivity.
Qed.

(** The tree of an output over an earlier scope is its tree over a later
    one, with the trees of the leaves put in. *)
Lemma tm_at_rebase (base : nat) (g added : list (NodeDef F)) (o : Output) :
  base <= length g ->
  tm_at base (added ++ g) o =
    rebase base g (tm_at (length g) (added ++ g) o).
Proof.
  intros Hb. revert o. induction added as [|n added IH]; intros o.
  - simpl. rewrite (tm_at_closed g o (Nat.le_refl _)). reflexivity.
  - simpl. rewrite length_app.
    destruct (Nat.eqb_spec (node o) (length added + length g)) as [E | _];
      [|apply IH].
    destruct (Nat.ltb_spec (node o) base); [lia|].
    destruct (Nat.ltb_spec (node o) (length g)); [lia|].
    simpl. destruct (OpKind_eqb (op n) Op_Variable); simpl.
    + symmetry. apply tm_at_fresh. lia.
    + f_equal. rewrite map_map. apply map_ext. intros i. apply IH.
Qed.

End Rebase.

Section Composition.

Context {F : Type} {FA : FloatArith F}.

Variables NOISE_DIM UNITS NUM_CHANNELS IMAGE_SIZE : Z.

Local Open Scope Z_scope.

Lemma Generator_expression (batch_size : Z) (s : Scope F) :
  exists gen s',
    Generator NOISE_DIM UNITS NUM_CHANNELS batch_size s = Some (gen, s') /\
    expression s s' (G.output gen) =
      Generator_tree NOISE_DIM NUM_CHANNELS batch_size
        (T_ref (G.w1 gen)) (T_ref (G.filter gen))
        (T_ref (G.filter2 gen)) (T_ref (G.filter3 gen)) /\
    (node (G.output gen) < length (graph s'))%nat.
Proof.
  cbn. unfold ret. eexists; eexists; split; [reflexivity|].
  cbn [G.output G.w1 G.filter G.filter2 G.filter3]. split.
  - read_back. reflexivity.
  - cbn. lia.
Qed.

Lemma Discriminator_expression (inputs' : Input F) (batch_size : Z)
  (s : Scope F) :
  operand_in s inputs' ->
  exists d s' added,
    Discriminator NUM_CHANNELS IMAGE_SIZE inputs' batch_size s
      = Some (d, s') /\
    graph s' = added ++ graph s /\
    expression s s' (D.output d) =
      Discriminator_forward IMAGE_SIZE d (operand inputs') batch_size /\
    (node (D.output d) < length (graph s'))%nat /\
    Forall (fun w =>
              (length (graph s) <= node w)%nat /\
              exists shape, node_of (graph s') w = Some (Variable_node shape))
      [D.conv1_weights d; D.conv1_biases d; D.conv2_weights d;
       D.conv2_biases d; D.fc1_weights d; D.fc1_biases d].
Proof.
  intros Hin.
  destruct inputs' as [x | t]; cbn in Hin |- *; unfold ret;
    (eexists; eexists; eexists; split; [reflexivity|]);
    cbn [D.output D.conv1_weights D.conv1_biases D.conv2_weights
         D.conv2_biases D.fc1_weights D.fc1_biases graph];
    (split; [split_added|]);
    (split; [read_back; reflexivity|]);
    (split; [cbn; lia|]);
    repeat (apply Forall_cons; [split; [cbn; lia | eexists; find_node]|]);
    apply Forall_nil.
Qed.

Lemma Discriminator_shared_expression (disc : D.members) (inputs' : Input F)
  (batch_size : Z) (s : Scope F) :
  operand_in s inputs' ->
  (node (D.conv1_weights disc) < length (graph s))%nat ->
  (node (D.conv1_biases disc) < length (graph s))%nat ->
  (node (D.conv2_weights disc) < length (graph s))%nat ->
  (node (D.conv2_biases disc) < length (graph s))%nat ->
  (node (D.fc1_weights disc) < length (graph s))%nat ->
  (node (D.fc1_biases disc) < length (graph s))%nat ->
  exists o s' added,
    Discriminator_shared IMAGE_SIZE disc inputs' batch_size s
      = Some (o, s') /\
    graph s' = added ++ graph s /\
    expression s s' o =
      Discriminator_forward IMAGE_SIZE disc (operand inputs') batch_size.
Proof.
  intros Hin H1 H2 H3 H4 H5 H6.
  destruct inputs' as [x | t]; cbn in Hin |- *; unfold ret;
    (eexists; eexists; eexists; split; [reflexivity|]);
    cbn [graph]; (split; [split_added|]);
    read_back; reflexivity.
Qed.

(** X12.  The arrangement of a GAN: after a Generator and a Discriminator
    on [real], the weight-sharing constructor applied to the output of the
    Generator builds the layers of the Discriminator over the six variables
    of the first one, with the pipeline of the Generator as their input;
    the output of the first Discriminator stays the expression it was. *)
Theorem Discriminator_shared_on_Generator (real : Input F)
  (batch_size : Z) (s : Scope F) :
  operand_in s real ->
  exists gen s1 d s2 fake s3,
    Generator NOISE_DIM UNITS NUM_CHANNELS batch_size s = Some (gen, s1) /\
    Discriminator NUM_CHANNELS IMAGE_SIZE real batch_size s1
      = Some (d, s2) /\
    Discriminator_shared IMAGE_SIZE d (G.output gen) batch_size s2
      = Some (fake, s3) /\
    expression s s3 fake =
      Discriminator_forward IMAGE_SIZE d
        (Generator_tree NOISE_DIM NUM_CHANNELS batch_size
           (T_ref (G.w1 gen)) (T_ref (G.filter gen))
           (T_ref (G.filter2 gen)) (T_ref (G.filter3 gen)))
        batch_size /\
    expression s s3 (D.output d) =
      Discriminator_forward IMAGE_SIZE d (operand real) batch_size.
Proof.
  intros Hin.
  destruct (Generator_expression batch_size s)
    as (gen & s1 & Hgen & Egen & Lout).
  destruct (Generator_writes NOISE_DIM UNITS NUM_CHANNELS batch_size s)
    as (gen' & s1' & added1 & Hgen' & G1 & _).
  rewrite Hgen in Hgen'. injection Hgen' as _ <-. clear gen'.
  assert (Hb1 : (length (graph s) <= length (graph s1))%nat).
  { rewrite G1, length_app. lia. }
  assert (Hin1 : operand_in s1 real).
  { destruct real as [o | c]; [|exact I]. cbn in Hin |- *. lia. }
  destruct (Discriminator_expression real batch_size s1 Hin1)
    as (d & s2 & added2 & Hd & G2 & Ed & Ld & Hvars).
  assert (Hb2 : (length (graph s) <= length (graph s2))%nat).
  { rewrite G2, length_app. lia. }
  assert (Hweights :
            Forall (fun w =>
                      (node w < length (graph s2))%nat /\
                      tm_at (length (graph s)) (graph s1) w = T_ref w /\
                      tm_at (length (graph s)) (graph s2) w = T_ref w)
              [D.conv1_weights d; D.conv1_biases d; D.conv2_weights d;
               D.conv2_biases d; D.fc1_weights d; D.fc1_biases d]).
  { eapply Forall_impl; [|exact Hvars]. cbn beta.
    intros w (Hnew & shape & Hnode). split; [|split].
    - exact (node_of_Some_lt _ _ Hnode).
    - apply tm_at_fresh, Hnew.
    - exact (tm_at_variable _ _ _ Hnode). }
  repeat match goal with
         | H : Forall _ (_ :: _) |- _ =>
             apply Forall_cons_iff in H; destruct H as [(? & ? & ?) H]
         end.
  assert (Lout2 : (node (G.output gen) < length (graph s2))%nat).
  { rewrite G2, length_app. lia. }
  destruct (Discriminator_shared_expression d (G.output gen) batch_size s2)
    as (fake & s3 & added3 & Hf & G3 & Ef); try assumption.
  exists gen, s1, d, s2, fake, s3.
  split; [exact Hgen|]. split; [exact Hd|]. split; [exact Hf|].
  assert (Hreal : rebase (length (graph s)) (graph s1) (operand real)
                  = operand real).
  { destruct real as [o | c]; [|reflexivity]. cbn in Hin |- *.
    apply tm_at_old, Hin. }
  assert (Hout : tm_at (length (graph s)) (graph s2) (G.output gen) =
            Generator_tree NOISE_DIM NUM_CHANNELS batch_size
              (T_ref (G.w1 gen)) (T_ref (G.filter gen))
              (T_ref (G.filter2 gen)) (T_ref (G.filter3 gen))).
  { rewrite G2, tm_at_skip by exact Lout. exact Egen. }
  split.
  - unfold expression. rewrite G3, tm_at_rebase by exact Hb2.
    rewrite <- G3. fold (expression s2 s3 fake). rewrite Ef.
    unfold Discriminator_forward, Discriminator_tree, conv_stage_tree,
      Dropout_tree.
    cbn [rebase map t_BiasAdd t_MatMul t_Reshape t_Const t_Multiply t_Div
         t_Floor t_Add t_RandomUniform t_Shape t_LeakyRelu t_Conv2D operand].
    repeat match goal with
           | E : tm_at _ (graph s2) _ = _ |- _ => rewrite !E; clear E
           end.
    reflexivity.
  - unfold expression. rewrite G3, tm_at_skip by exact Ld.
    rewrite G2, tm_at_rebase by exact Hb1.
    rewrite <- G2. fold (expression s1 s2 (D.output d)). rewrite Ed.
    unfold Discriminator_forward, Discriminator_tree, conv_stage_tree,
      Dropout_tree.
    cbn [rebase map t_BiasAdd t_MatMul t_Reshape t_Const t_Multiply t_Div
         t_Floor t_Add t_RandomUniform t_Shape t_LeakyRelu t_Conv2D].
    rewrite Hreal.
    repeat match goal with
           | E : tm_at _ (graph s1) _ = _ |- _ => rewrite !E; clear E
           end.
    reflexivity.
Qed.

End Composition.

(** The theorem above in a new root scope, for an empty input given in
    the program text. *)
Lemma Discriminator_shared_on_Generator_witness :
  let real : Input Binary32.float32 := In_Tensor (list_f []) in
  exists gen s1 d s2 fake s3,
    Generator 100 12544 1 2 NewRootScope = Some (gen, s1) /\
    Discriminator 1 28 real 2 s1 = Some (d, s2) /\
    Discriminator_shared 28 d (G.output gen) 2 s2 = Some (fake, s3) /\
    expression NewRootScope s3 fake =
      Discriminator_forward 28 d
        (Generator_tree 100 1 2 (T_ref (G.w1 gen)) (T_ref (G.filter gen))
           (T_ref (G.filter2 gen)) (T_ref (G.filter3 gen))) 2.
Proof.
  intros real.
  destruct (@Discriminator_shared_on_Generator Binary32.float32 _
              100 12544 1 28 real 2 NewRootScope I)
    as (gen & s1 & d & s2 & fake & s3 & H1 & H2 & H3 & E & _).
  exists gen, s1, d, s2, fake, s3. repeat split; assumption.
Defined.
